(** * audio-track-mixer: a shallow embedding of [AudioTrackMixer]

    The development follows [src/index.ts] (the mixer class), the second
    revision of that file (which carries [getTracksFromAudioElement]) and
    [src/utils/agent.ts] (browser detection).

    - JavaScript numbers are IEEE-754 binary64 values: [float] with the
      kernel's primitive operations; a gain parameter holds single-precision
      numbers, so what is assigned to it is rounded, or refused.
    - A [Uint8Array] is a [list byte].
    - [Map<string, TrackCache>] is an insertion-ordered association list with
      the operations of a JavaScript [Map].
    - Objects that the code shares and mutates ([MediaStreamTrack.enabled],
      [GainNode.gain.value], the connections of the audio graph) live in
      stores keyed by the identity of the object.
    - A method is a state transformer that either completes normally with a
      value or abruptly with an exception; in both cases it yields the state
      reached so far, since a [throw] does not undo earlier assignments. *)

From Stdlib Require Import Floats ZArith Uint63 Ascii.
From Stdlib.Strings Require Import Byte.
From stdpp Require Import gmap strings list.

Local Open Scope string_scope.
Set Warnings "-clear-no-such-hyp,-inexact-float".

(** ** JavaScript values used by the code *)

(** Exceptions: [new Error(message)] thrown by the mixer itself, the
    [DOMException]s raised by the Web Audio primitives, and the [TypeError]
    of a value that an attribute does not accept. *)
Inductive Exception :=
  | Error (message : string)
  | DOMException (name : string)
  | TypeError.

(** The completion of a call: normal with a value, or abrupt with the
    exception thrown.  Both carry the state at the moment of completion. *)
Inductive Completion (S A : Type) :=
  | Normal (v : A) (s : S)
  | Abrupt (e : Exception) (s : S).
Arguments Normal {S A} v s.
Arguments Abrupt {S A} e s.

Definition final_state {S A} (c : Completion S A) : S :=
  match c with Normal _ s => s | Abrupt _ s => s end.

Definition throws {S A} (c : Completion S A) : Prop :=
  match c with Normal _ _ => False | Abrupt _ _ => True end.

(** Truthiness of a string: only the empty string is falsy. *)
Definition truthy (s : string) : bool := negb (String.eqb s "").

(** [String.prototype.toLowerCase], on the ASCII letters. *)
Definition lower_ascii (c : ascii) : ascii :=
  let n := nat_of_ascii c in
  if (65 <=? n)%nat && (n <=? 90)%nat then ascii_of_nat (n + 32) else c.

Fixpoint toLowerCase (s : string) : string :=
  match s with
  | EmptyString => EmptyString
  | String c s' => String (lower_ascii c) (toLowerCase s')
  end.

(** ** [Map<string, V>]: keys are unique and iteration follows insertion. *)
Module JsMap.
Section JsMap.
Context {V : Type}.

Definition t := list (string * V).

Definition empty : t := [].

Fixpoint get (m : t) (k : string) : option V :=
  match m with
  | [] => None
  | (k', v) :: m' => if String.eqb k' k then Some v else get m' k
  end.

(** [set] overwrites in place when the key is present, appends otherwise. *)
Fixpoint set (m : t) (k : string) (v : V) : t :=
  match m with
  | [] => [(k, v)]
  | (k', v') :: m' =>
      if String.eqb k' k then (k, v) :: m' else (k', v') :: set m' k v
  end.

Fixpoint delete (m : t) (k : string) : t :=
  match m with
  | [] => []
  | (k', v') :: m' =>
      if String.eqb k' k then delete m' k else (k', v') :: delete m' k
  end.

Definition clear (m : t) : t := [].

(** [forEach] visits the values in insertion order. *)
Definition values (m : t) : list V := map snd m.

Definition keys (m : t) : list string := map fst m.
End JsMap.
Arguments t : clear implicits.
End JsMap.

(** ** Platform objects *)

(** A [MediaStreamTrack]: [id] and [kind] are read-only; [enabled] is mutable
    and therefore kept in the store of the state, under the identity [obj] of
    the track object. *)
Module MediaStreamTrack.
Record t := mk { obj : nat; id : string; kind : string }.
End MediaStreamTrack.

(** A [MediaStream] is the list of its tracks. *)
Definition MediaStream := list MediaStreamTrack.t.

Definition new_MediaStream : MediaStream := [].

Definition is_audio (t : MediaStreamTrack.t) : bool :=
  String.eqb (MediaStreamTrack.kind t) "audio".

Definition MediaStream_addTrack (s : MediaStream) (t : MediaStreamTrack.t) : MediaStream :=
  if existsb (fun t' => Nat.eqb (MediaStreamTrack.obj t') (MediaStreamTrack.obj t)) s
  then s else (s ++ [t])%list.

Definition getAudioTracks (s : MediaStream) : list MediaStreamTrack.t :=
  List.filter is_audio s.

(** Audio nodes are known by their identity in the graph of their context. *)
Definition NodeId := nat.

Record MediaStreamAudioDestinationNode := {
  destination_id : NodeId;
  stream : MediaStream
}.

Record AnalyserNode := {
  analyser_id : NodeId;
  frequencyBinCount : nat
}.

Inductive AudioContextState := suspended | running | closed | interrupted.

(** The completion signal of [AudioContext.close()]. *)
Inductive Settlement := Fulfil | Reject (reason : Exception).
Inductive Promise := Pending | Settled (s : Settlement).

Record AudioContext := {
  node_count : nat;                          (* nodes created so far: 0 .. node_count - 1 *)
  gain_value : gmap NodeId float;            (* GainNode.gain.value, as assigned *)
  connections : gset (NodeId * NodeId);      (* (from, to) *)
  time_domain : list byte;                   (* what the analysers currently hear *)
  state : AudioContextState;
  onstatechange : bool                       (* the resume-on-interrupt handler is installed *)
}.

Definition with_node_count (c : AudioContext) (n : nat) : AudioContext :=
  {| node_count := n; gain_value := gain_value c; connections := connections c;
     time_domain := time_domain c; state := state c; onstatechange := onstatechange c |}.
Definition with_gain_value (c : AudioContext) (g : gmap NodeId float) : AudioContext :=
  {| node_count := node_count c; gain_value := g; connections := connections c;
     time_domain := time_domain c; state := state c; onstatechange := onstatechange c |}.
Definition with_connections (c : AudioContext) (e : gset (NodeId * NodeId)) : AudioContext :=
  {| node_count := node_count c; gain_value := gain_value c; connections := e;
     time_domain := time_domain c; state := state c; onstatechange := onstatechange c |}.
Definition with_state (c : AudioContext) (s : AudioContextState) : AudioContext :=
  {| node_count := node_count c; gain_value := gain_value c; connections := connections c;
     time_domain := time_domain c; state := s; onstatechange := onstatechange c |}.
Definition with_onstatechange (c : AudioContext) (b : bool) : AudioContext :=
  {| node_count := node_count c; gain_value := gain_value c; connections := connections c;
     time_domain := time_domain c; state := state c; onstatechange := b |}.

(** ** The mixer *)

Record TrackCache := {
  track : MediaStreamTrack.t;
  mediaStream : MediaStream;
  sourceNode : NodeId;
  gainNode : NodeId
}.

Definition BASE : float := 128%float.

Record AudioTrackMixer := {
  audioContext : AudioContext;
  destinationNode : MediaStreamAudioDestinationNode;
  caches : JsMap.t TrackCache;
  analyserSourceNode : NodeId;
  analyser : option AnalyserNode;
  timeDomainData : list byte
}.

(** The state a method runs in: the mixer object and the [enabled] flags of
    the track objects (a track that was never written is enabled). *)
Record State := {
  this : AudioTrackMixer;
  enabled : gmap nat bool
}.

Definition track_enabled (s : State) (t : MediaStreamTrack.t) : bool :=
  default true (enabled s !! MediaStreamTrack.obj t).

Definition with_audioContext (m : AudioTrackMixer) (c : AudioContext) : AudioTrackMixer :=
  {| audioContext := c; destinationNode := destinationNode m; caches := caches m;
     analyserSourceNode := analyserSourceNode m; analyser := analyser m;
     timeDomainData := timeDomainData m |}.
Definition with_caches (m : AudioTrackMixer) (cs : JsMap.t TrackCache) : AudioTrackMixer :=
  {| audioContext := audioContext m; destinationNode := destinationNode m; caches := cs;
     analyserSourceNode := analyserSourceNode m; analyser := analyser m;
     timeDomainData := timeDomainData m |}.
Definition with_timeDomainData (m : AudioTrackMixer) (d : list byte) : AudioTrackMixer :=
  {| audioContext := audioContext m; destinationNode := destinationNode m; caches := caches m;
     analyserSourceNode := analyserSourceNode m; analyser := analyser m;
     timeDomainData := d |}.

(** *** The method monad *)
Definition Method (A : Type) : Type := State → Completion State A.

Definition ret {A} (v : A) : Method A := fun s => Normal v s.
Definition throw {A} (e : Exception) : Method A := fun s => Abrupt e s.
Definition bind {A B} (m : Method A) (k : A → Method B) : Method B :=
  fun s => match m s with
           | Normal v s' => k v s'
           | Abrupt e s' => Abrupt e s'
           end.

Global Instance Method_ret : MRet Method := @ret.
Global Instance Method_bind : MBind Method := fun A B k m => bind m k.

Definition get_this : Method AudioTrackMixer := fun s => Normal (this s) s.
Definition set_this (m : AudioTrackMixer) : Method unit :=
  fun s => Normal tt {| this := m; enabled := enabled s |}.
Definition set_enabled (t : MediaStreamTrack.t) (b : bool) : Method unit :=
  fun s => Normal tt {| this := this s; enabled := <[MediaStreamTrack.obj t := b]> (enabled s) |}.

(** Run a primitive of the audio context on [this.audioContext]. *)
Definition on_context {A} (f : AudioContext → Completion AudioContext A) : Method A :=
  fun s => match f (audioContext (this s)) with
           | Normal v c => Normal v {| this := with_audioContext (this s) c; enabled := enabled s |}
           | Abrupt e c => Abrupt e {| this := with_audioContext (this s) c; enabled := enabled s |}
           end.

(** *** Web Audio primitives

    [createMediaStreamSource] raises [InvalidStateError] on a stream without
    an audio track; [disconnect(destination)] raises [InvalidAccessError]
    when the node is not connected to [destination]; [connect] is idempotent;
    [close] on a closed context returns a rejected promise.  [gain.value]
    is a single-precision attribute: assigning a number stores its
    [to_float32] rounding, and a number that has none ([NaN], an infinity, a
    magnitude beyond single precision) makes the assignment throw
    [TypeError] before anything is stored. *)
Definition createNode (c : AudioContext) : NodeId * AudioContext :=
  (node_count c, with_node_count c (S (node_count c))).

Definition createMediaStreamSource (ms : MediaStream) (c : AudioContext)
  : Completion AudioContext NodeId :=
  if existsb is_audio ms
  then let '(n, c') := createNode c in Normal n c'
  else Abrupt (DOMException "InvalidStateError") c.

Definition createGain (c : AudioContext) : Completion AudioContext NodeId :=
  let '(n, c') := createNode c in
  Normal n (with_gain_value c' (<[n := 1%float]> (gain_value c'))).

Definition connect (from to : NodeId) (c : AudioContext) : Completion AudioContext unit :=
  Normal tt (with_connections c ({[ (from, to) ]} ∪ connections c)).

Definition disconnect (from to : NodeId) (c : AudioContext) : Completion AudioContext unit :=
  if decide ((from, to) ∈ connections c)
  then Normal tt (with_connections c (connections c ∖ {[ (from, to) ]}))
  else Abrupt (DOMException "InvalidAccessError") c.

(** [m / 2^k] rounded to the nearest integer, halves to the even one. *)
Definition round_half_even (m k : Z) : Z :=
  let q := Z.shiftr m k in
  let r := (m - Z.shiftl q k)%Z in
  let half := Z.shiftl 1 (k - 1) in
  if (half <? r)%Z || ((r =? half)%Z && Z.odd q) then (q + 1)%Z else q.

(** The conversion of a number to a single-precision attribute value: the
    nearest binary32 number (24 significant bits, least exponent -149, ties
    to even), as a binary64 number again; [None] where the conversion throws
    [TypeError]: for [NaN], the infinities, and where the nearest value would
    be 2^128 or beyond. *)
Definition to_float32 (x : float) : option float :=
  match Prim2SF x with
  | S754_nan => None
  | S754_infinity _ => None
  | S754_zero _ => Some x
  | S754_finite sign m e =>
      let digits := (Z.log2 (Zpos m) + 1)%Z in
      let e' := Z.max (e + digits - 24) (-149) in
      if (e' <=? e)%Z
      then (if (Z.shiftl 1 277 <=? Z.shiftl (Zpos m) (e + 149))%Z then None else Some x)
      else
        let q := round_half_even (Zpos m) (e' - e) in
        if (Z.shiftl 1 277 <=? Z.shiftl q (e' + 149))%Z then None
        else
          let y := Z.ldexp (PrimFloat.of_uint63 (Uint63.of_Z q)) e' in
          Some (if sign then PrimFloat.opp y else y)
  end.

(** [node.gain.value = v] *)
Definition set_gain (n : NodeId) (v : float) (c : AudioContext) : Completion AudioContext unit :=
  match to_float32 v with
  | Some stored => Normal tt (with_gain_value c (<[n := stored]> (gain_value c)))
  | None => Abrupt TypeError c
  end.

Definition close (c : AudioContext) : Completion AudioContext Promise :=
  match state c with
  | closed => Normal (Settled (Reject (DOMException "InvalidStateError"))) c
  | _ => Normal Pending (with_state c closed)
  end.

(** [analyser.getByteTimeDomainData(array)] overwrites [array] from its start
    with the current waveform; what does not fit is dropped, what is not
    covered stays. *)
Definition getByteTimeDomainData (c : AudioContext) (array : list byte) : list byte :=
  (take (length array) (time_domain c) ++ drop (length (time_domain c)) array)%list.

(** *** The environment of the constructor *)

(** What reading a property of an object may give. *)
Inductive JsProperty := Undefined | NotCallable (is_truthy : bool) | Callable.

Definition prop_truthy (p : JsProperty) : bool :=
  match p with Undefined => false | NotCallable b => b | Callable => true end.
Definition prop_is_function (p : JsProperty) : bool :=
  match p with Callable => true | _ => false end.

(** An audio-context class of the host: whether its instances can create a
    stream destination, whether the host lets a new context start running
    (it starts suspended otherwise), the analysers' FFT size, the track the
    destination stream carries, and what the analysers hear at first. *)
Record AudioContextClass := {
  createMediaStreamDestination_property : JsProperty;
  starts_running : bool;
  fftSize : nat;
  mixed_track_obj : nat;
  mixed_track_id : string;
  initial_time_domain : list byte
}.

Record Window := {
  window_AudioContext : option AudioContextClass;
  window_webkitAudioContext : option AudioContextClass;
  window_mozAudioContext : option AudioContextClass;
  window_msAudioContext : option AudioContextClass;
  window_oAudioContext : option AudioContextClass
}.

(** [a || b] on values that are either [undefined] or a class. *)
Definition or_else {A} (a b : option A) : option A :=
  match a with Some _ => a | None => b end.

Definition AudioContextClass_of (w : Window) : option AudioContextClass :=
  or_else (window_AudioContext w)
    (or_else (window_webkitAudioContext w)
       (or_else (window_mozAudioContext w)
          (or_else (window_msAudioContext w) (window_oAudioContext w)))).

Definition new_AudioContext (cls : AudioContextClass) : AudioContext :=
  {| node_count := 0; gain_value := ∅; connections := ∅;
     time_domain := initial_time_domain cls;
     state := if starts_running cls then running else suspended;
     onstatechange := false |}.

Definition createMediaStreamDestination (cls : AudioContextClass) (c : AudioContext)
  : MediaStreamAudioDestinationNode * AudioContext :=
  let '(n, c') := createNode c in
  ({| destination_id := n;
      stream := [MediaStreamTrack.mk (mixed_track_obj cls) (mixed_track_id cls) "audio"] |}, c').

Definition createAnalyser (cls : AudioContextClass) (c : AudioContext)
  : AnalyserNode * AudioContext :=
  let '(n, c') := createNode c in
  ({| analyser_id := n; frequencyBinCount := fftSize cls / 2 |}, c').

Definition capability_error : Exception :=
  Error "the environment doesnot support to mix audio track".

(** [new AudioTrackMixer()].  The state of a construction is what has been
    assigned to [this.audioContext] so far. *)
Definition constructor (w : Window) : Completion (option AudioContext) AudioTrackMixer :=
  match AudioContextClass_of w with
  | None => Abrupt capability_error None
  | Some cls =>
      let c0 := new_AudioContext cls in
      if negb (prop_truthy (createMediaStreamDestination_property cls))
         || negb (prop_is_function (createMediaStreamDestination_property cls))
      then Abrupt capability_error (Some c0)
      else
        let '(dest, c1) := createMediaStreamDestination cls c0 in
        let outStream := stream dest in
        match createMediaStreamSource outStream c1 with
        | Abrupt e c2 => Abrupt e (Some c2)
        | Normal asrc c2 =>
            let '(an, c3) := createAnalyser cls c2 in
            let data := repeat "000"%byte (frequencyBinCount an) in
            match connect asrc (analyser_id an) c3 with
            | Abrupt e c4 => Abrupt e (Some c4)
            | Normal _ c4 =>
                let c5 := with_onstatechange c4 true in
                Normal {| audioContext := c5; destinationNode := dest; caches := JsMap.empty;
                          analyserSourceNode := asrc; analyser := Some an;
                          timeDomainData := data |} (Some c5)
            end
        end
  end.

(** *** Methods of the mixer *)

Definition not_an_audio_track : Exception := Error "not an audio track".

Definition already_added (id : string) : Exception :=
  Error ("audio track (id: " ++ id ++ ") has already been added").

(** The guard every per-track method starts with:
    [if (!track.kind || track.kind !== 'audio') throw ...]. *)
Definition check_kind (track : MediaStreamTrack.t) : Method unit :=
  if negb (truthy (MediaStreamTrack.kind track))
     || negb (String.eqb (MediaStreamTrack.kind track) "audio")
  then throw not_an_audio_track
  else ret tt.

Definition caches_get (id : string) : Method (option TrackCache) :=
  m ← get_this; ret (JsMap.get (caches m) id).

Definition addTrack (track : MediaStreamTrack.t) : Method AudioTrackMixer :=
  check_kind track;;
  cache ← caches_get (MediaStreamTrack.id track);
  match cache with
  | Some _ => throw (already_added (MediaStreamTrack.id track))
  | None =>
      let mediaStream := MediaStream_addTrack new_MediaStream track in
      sourceNode ← on_context (createMediaStreamSource mediaStream);
      gainNode ← on_context createGain;
      on_context (connect sourceNode gainNode);;
      m ← get_this;
      on_context (connect gainNode (destination_id (destinationNode m)));;
      m ← get_this;
      set_this (with_caches m
        (JsMap.set (caches m) (MediaStreamTrack.id track)
           {| track := track; mediaStream := mediaStream;
              sourceNode := sourceNode; gainNode := gainNode |}));;
      get_this
  end.

Definition removeTrack (track : MediaStreamTrack.t) : Method AudioTrackMixer :=
  check_kind track;;
  cache ← caches_get (MediaStreamTrack.id track);
  match cache with
  | Some cache =>
      m ← get_this;
      on_context (disconnect (gainNode cache) (destination_id (destinationNode m)));;
      on_context (disconnect (sourceNode cache) (gainNode cache));;
      m ← get_this;
      set_this (with_caches m (JsMap.delete (caches m) (MediaStreamTrack.id track)))
  | None => ret tt
  end;;
  get_this.

Definition setTrackVolume (track : MediaStreamTrack.t) (volume : float) : Method unit :=
  check_kind track;;
  cache ← caches_get (MediaStreamTrack.id track);
  match cache with
  | Some cache => on_context (set_gain (gainNode cache) (volume / 100)%float)
  | None => ret tt
  end.

Definition muteTrack (t : MediaStreamTrack.t) : Method bool :=
  check_kind t;;
  cache ← caches_get (MediaStreamTrack.id t);
  match cache with
  | Some cache => set_enabled (track cache) false;; ret true
  | None => ret false
  end.

Definition unmuteTrack (t : MediaStreamTrack.t) : Method bool :=
  check_kind t;;
  cache ← caches_get (MediaStreamTrack.id t);
  match cache with
  | Some cache => set_enabled (track cache) true;; ret true
  | None => ret false
  end.

(** [caches.forEach(f)] *)
Fixpoint forEach {V} (f : V → Method unit) (vs : list V) : Method unit :=
  match vs with
  | [] => ret tt
  | v :: vs' => f v;; forEach f vs'
  end.

Definition getTracks : Method (list MediaStreamTrack.t) :=
  m ← get_this;
  ret (fold_left (fun tracks cache => (tracks ++ [track cache])%list)
         (JsMap.values (caches m)) []).

Definition getMixedTrack : Method (option MediaStreamTrack.t) :=
  m ← get_this; ret (head (getAudioTracks (stream (destinationNode m)))).

Definition getMixedMediaStream : Method MediaStream :=
  m ← get_this; ret (stream (destinationNode m)).

(** [Math.max], [Math.abs] and [Math.floor] on binary64 numbers. *)
Definition Math_max (a b : float) : float :=
  if PrimFloat.is_nan a || PrimFloat.is_nan b then PrimFloat.nan
  else if (a <? b)%float then b
  else if (b <? a)%float then a
  else if PrimFloat.get_sign a then b else a.

Definition Math_abs (a : float) : float := PrimFloat.abs a.

Definition float_of_Z (z : Z) : float :=
  if (z <? 0)%Z then PrimFloat.opp (PrimFloat.of_uint63 (Uint63.of_Z (- z)))
  else PrimFloat.of_uint63 (Uint63.of_Z z).

Definition Math_floor (x : float) : float :=
  match Prim2SF x with
  | S754_finite sign m e =>
      if (0 <=? e)%Z then x
      else
        let q := Z.shiftr (Zpos m) (- e) in
        if sign
        then (if (Z.shiftl q (- e) =? Zpos m)%Z then float_of_Z (- q)
              else float_of_Z (- (q + 1)))
        else float_of_Z q
  | _ => x
  end.

(** A [Uint8Array] element read as a number. *)
Definition number_of_byte (b : byte) : float :=
  PrimFloat.of_uint63 (Uint63.of_Z (Z.of_N (Byte.to_N b))).

Definition getMixedTrackVolume : Method float :=
  m ← get_this;
  max ← match analyser m with
        | Some _ =>
            set_this (with_timeDomainData m
                        (getByteTimeDomainData (audioContext m) (timeDomainData m)));;
            m ← get_this;
            ret (fold_left
                   (fun max item => Math_max max (Math_abs (number_of_byte item - BASE)%float))
                   (timeDomainData m) 0%float)
        | None => ret 0%float
        end;
  ret (Math_floor ((max / BASE) * 100)%float).

Definition destroy : Method Promise :=
  m ← get_this;
  forEach (fun cache =>
             m ← get_this;
             on_context (disconnect (gainNode cache) (destination_id (destinationNode m)));;
             on_context (disconnect (sourceNode cache) (gainNode cache)))
          (JsMap.values (caches m));;
  m ← get_this;
  set_this (with_caches m (JsMap.clear (caches m)));;
  on_context close.

(** ** Browser detection ([utils/agent.ts]) *)

(** What the user-agent parser reports; every field may be missing. *)
Record Bowser := {
  getBrowser_name : option string;
  getBrowser_version : option string;
  getPlatform_type : option string;
  getEngine_name : option string;
  getEngine_version : option string
}.

Record BrowserInfo := {
  name : string;
  version : string;
  isMobile : bool;
  engineName : option string;
  engineVersion : option string
}.

(** [x || 'unknown'] on an optional string. *)
Definition string_or (x : option string) (d : string) : string :=
  match x with
  | Some s => if truthy s then s else d
  | None => d
  end.

Definition getBrowserInfo (browser : Bowser) : BrowserInfo :=
  {| name := string_or (getBrowser_name browser) "unknown";
     version := string_or (getBrowser_version browser) "unknown";
     isMobile := match getPlatform_type browser with
                 | Some ty => String.eqb ty "mobile"
                 | None => false
                 end;
     engineName := getEngine_name browser;
     engineVersion := getEngine_version browser |}.

Definition isSafari (browser : Bowser) : bool :=
  let browserInfo := getBrowserInfo browser in
  String.eqb (toLowerCase (name browserInfo)) "safari".

Definition isOldEdge (browser : Bowser) : bool :=
  let browserInfo := getBrowserInfo browser in
  String.eqb (toLowerCase (name browserInfo)) "microsoft edge"
  && match engineName browserInfo with
     | Some e => negb (String.eqb (toLowerCase e) "blink")
     | None => true
     end.

(** ** Static capture helpers *)

(** The host as the helpers see it: which capture methods
    [Audio.prototype] has, and the parsed user agent. *)
Record Host := {
  Audio_prototype_captureStream : bool;
  Audio_prototype_mozCaptureStream : bool;
  browser : Bowser
}.

Record AudioTrack := { audioTrack_id : string; audioTrack_enabled : bool }.

(** A media element: the streams its capture methods give, and its legacy
    [audioTracks] list, if it has one. *)
Record HTMLMediaElement := {
  captureStream : MediaStream;
  mozCaptureStream : MediaStream;
  audioTracks : option (list AudioTrack)
}.

(** The console: the warnings printed so far, oldest first. *)
Definition Console := list string.

Definition console_warn (msg : string) (c : Console) : Console := (c ++ [msg])%list.

Definition not_support_message (info : BrowserInfo) : string :=
  name info ++ " - " ++ version info ++ " is not support this API".

Definition static_getTracks (s : MediaStream) : list MediaStreamTrack.t :=
  getAudioTracks s.

(** [getMediaStreamFromElement]; [None] is [undefined]. *)
Definition getMediaStreamFromElement (h : Host) (el : HTMLMediaElement) (c : Console)
  : option MediaStream * Console :=
  if Audio_prototype_captureStream h then (Some (captureStream el), c)
  else if Audio_prototype_mozCaptureStream h then (Some (mozCaptureStream el), c)
  else
    let browserInfo := getBrowserInfo (browser h) in
    (None, console_warn (not_support_message browserInfo) c).

(** What [getTracksFromAudioElement] may hand back: its result is typed
    through [any], so the three branches give three shapes. *)
Inductive ElementTracks :=
  | TrackArray (ts : list MediaStreamTrack.t)
  | FirstTrack (t : option MediaStreamTrack.t)
  | LegacyAudioTracks (l : option (list AudioTrack)).

Definition getTracksFromAudioElement (h : Host) (audio : HTMLMediaElement) (c : Console)
  : ElementTracks * Console :=
  if Audio_prototype_captureStream h
  then (TrackArray (getAudioTracks (captureStream audio)), c)
  else if Audio_prototype_mozCaptureStream h
  then (FirstTrack (head (getAudioTracks (mozCaptureStream audio))), c)
  else if isSafari (browser h) || isOldEdge (browser h)
  then (LegacyAudioTracks (audioTracks audio), c)
  else (TrackArray [], c).

(** ** Histories of a mixer *)

(** What can happen to a constructed mixer: a call of one of its methods, or
    the world moving on (the caller flips a track's [enabled] flag, the
    analyser hears something else, the platform changes the state of the
    context). *)
Inductive Event :=
  | call_addTrack (t : MediaStreamTrack.t)
  | call_removeTrack (t : MediaStreamTrack.t)
  | call_setTrackVolume (t : MediaStreamTrack.t) (volume : float)
  | call_muteTrack (t : MediaStreamTrack.t)
  | call_unmuteTrack (t : MediaStreamTrack.t)
  | call_getTracks
  | call_getMixedTrack
  | call_getMixedTrackVolume
  | call_getMixedMediaStream
  | call_destroy
  | world_set_enabled (t : MediaStreamTrack.t) (b : bool)
  | world_signal (wave : list byte)
  | world_statechange (st : AudioContextState).

Definition with_time_domain (c : AudioContext) (w : list byte) : AudioContext :=
  {| node_count := node_count c; gain_value := gain_value c; connections := connections c;
     time_domain := w; state := state c; onstatechange := onstatechange c |}.

(** [audioContext.resume()] only files a request: nothing changes before
    the platform answers it. *)
Definition resume (c : AudioContext) : AudioContext := c.

(** The context moves to state [st] and the handler the constructor
    installed runs: [if (state === 'interrupted') resume()]. *)
Definition statechange (st : AudioContextState) (c : AudioContext) : AudioContext :=
  let c' := with_state c st in
  if onstatechange c'
  then match state c' with interrupted => resume c' | _ => c' end
  else c'.

(** The state after an event, whether the call returned or threw. *)
Definition after (e : Event) (s : State) : State :=
  match e with
  | call_addTrack t => final_state (addTrack t s)
  | call_removeTrack t => final_state (removeTrack t s)
  | call_setTrackVolume t v => final_state (setTrackVolume t v s)
  | call_muteTrack t => final_state (muteTrack t s)
  | call_unmuteTrack t => final_state (unmuteTrack t s)
  | call_getTracks => final_state (getTracks s)
  | call_getMixedTrack => final_state (getMixedTrack s)
  | call_getMixedTrackVolume => final_state (getMixedTrackVolume s)
  | call_getMixedMediaStream => final_state (getMixedMediaStream s)
  | call_destroy => final_state (destroy s)
  | world_set_enabled t b => final_state (set_enabled t b s)
  | world_signal w =>
      {| this := with_audioContext (this s) (with_time_domain (audioContext (this s)) w);
         enabled := enabled s |}
  | world_statechange st =>
      {| this := with_audioContext (this s) (statechange st (audioContext (this s)));
         enabled := enabled s |}
  end.

Inductive reachable : State → Prop :=
  | reachable_new (w : Window) (m : AudioTrackMixer) (c : option AudioContext)
                  (flags : gmap nat bool) :
      constructor w = Normal m c →
      reachable {| this := m; enabled := flags |}
  | reachable_after (e : Event) (s : State) :
      reachable s → reachable (after e s).

(** ** The registry and the graph *)

Definition registered (m : AudioTrackMixer) (id : string) (c : TrackCache) : Prop :=
  JsMap.get (caches m) id = Some c.

Definition destination (m : AudioTrackMixer) : NodeId := destination_id (destinationNode m).

(** [source] feeds [gain] and [gain] feeds the destination. *)
Definition wired (m : AudioTrackMixer) (source gain : NodeId) : Prop :=
  (source, gain) ∈ connections (audioContext m)
  ∧ (gain, destination m) ∈ connections (audioContext m).

(** The invariant of the data model: one registration per identifier, and
    the wired source/gain pairs are exactly those of the registrations. *)
Definition registry_invariant (m : AudioTrackMixer) : Prop :=
  NoDup (JsMap.keys (caches m))
  ∧ ∀ source gain,
      wired m source gain
      ↔ ∃ id c, registered m id c ∧ sourceNode c = source ∧ gainNode c = gain.

(** The edges the registrations account for. *)
Fixpoint edges_of (dest : NodeId) (cs : list TrackCache) : gset (NodeId * NodeId) :=
  match cs with
  | [] => ∅
  | c :: cs' => {[ (sourceNode c, gainNode c) ]} ∪ {[ (gainNode c, dest) ]} ∪ edges_of dest cs'
  end.

(** The inductive strengthening: gain nodes are created nodes, pairwise
    distinct and distinct from the destination and the analyser; the
    connections are the registrations' edges plus the analyser's tap. *)
Record well_formed (m : AudioTrackMixer) : Prop := {
  wf_keys : NoDup (JsMap.keys (caches m));
  wf_gains : NoDup (map gainNode (JsMap.values (caches m)));
  wf_created : ∀ c, c ∈ JsMap.values (caches m) → gainNode c < node_count (audioContext m);
  wf_gain_dest : ∀ c, c ∈ JsMap.values (caches m) → gainNode c ≠ destination m;
  wf_tap : ∃ an tap,
      analyser m = Some an
      ∧ tap = (analyserSourceNode m, analyser_id an)
      ∧ analyser_id an < node_count (audioContext m)
      ∧ analyser_id an ≠ destination m
      ∧ (∀ c, c ∈ JsMap.values (caches m) → gainNode c ≠ analyser_id an)
      ∧ connections (audioContext m)
        = edges_of (destination m) (JsMap.values (caches m)) ∪ {[ tap ]};
  wf_dest : destination m < node_count (audioContext m)
}.

(** ** States after a successful call *)

(** The context after a successful [addTrack]: two nodes more, the new gain
    at unity, the new source wired to the new gain and the gain to [dest]. *)
Definition context_after_add (c : AudioContext) (dest : NodeId) : AudioContext :=
  {| node_count := S (S (node_count c));
     gain_value := <[S (node_count c) := 1%float]> (gain_value c);
     connections :=
       {[ (S (node_count c), dest) ]} ∪ ({[ (node_count c, S (node_count c)) ]} ∪ connections c);
     time_domain := time_domain c; state := state c; onstatechange := onstatechange c |}.

Definition cache_for (t : MediaStreamTrack.t) (c : AudioContext) : TrackCache :=
  {| track := t; mediaStream := [t];
     sourceNode := node_count c; gainNode := S (node_count c) |}.

Definition mixer_after_add (m : AudioTrackMixer) (t : MediaStreamTrack.t) : AudioTrackMixer :=
  {| audioContext := context_after_add (audioContext m) (destination m);
     destinationNode := destinationNode m;
     caches := JsMap.set (caches m) (MediaStreamTrack.id t) (cache_for t (audioContext m));
     analyserSourceNode := analyserSourceNode m;
     analyser := analyser m;
     timeDomainData := timeDomainData m |}.

(** The mixer after [removeTrack] found the registration [c] under [id]:
    both edges of [c] are gone and so is the entry. *)
Definition mixer_after_remove (m : AudioTrackMixer) (id : string) (c : TrackCache)
  : AudioTrackMixer :=
  with_caches
    (with_audioContext m
       (with_connections (audioContext m)
          (connections (audioContext m)
             ∖ {[ (gainNode c, destination m) ]}
             ∖ {[ (sourceNode c, gainNode c) ]})))
    (JsMap.delete (caches m) id).

(** The mixer when [destroy] has unwired every registration and cleared the
    registry, right before it closes the context. *)
Definition mixer_unwired (m : AudioTrackMixer) : AudioTrackMixer :=
  with_caches
    (with_audioContext m
       (with_connections (audioContext m)
          (connections (audioContext m)
             ∖ edges_of (destination m) (JsMap.values (caches m)))))
    [].

(** ** A small host, used to run the model *)

Definition chrome_class : AudioContextClass :=
  {| createMediaStreamDestination_property := Callable; starts_running := true;
     fftSize := 8;
     mixed_track_obj := 0; mixed_track_id := "mixed";
     initial_time_domain := ["128"; "200"; "028"; "128"]%byte |}.

(** A context class whose instances cannot create a stream destination. *)
Definition old_edge_class : AudioContextClass :=
  {| createMediaStreamDestination_property := Undefined; starts_running := true;
     fftSize := 8;
     mixed_track_obj := 0; mixed_track_id := "mixed";
     initial_time_domain := [] |}.

Definition window_with (prefixed : option AudioContextClass) : Window :=
  {| window_AudioContext := None; window_webkitAudioContext := prefixed;
     window_mozAudioContext := None; window_msAudioContext := None;
     window_oAudioContext := None |}.

Definition chrome_window : Window := window_with (Some chrome_class).
Definition old_edge_window : Window := window_with (Some old_edge_class).
Definition bare_window : Window := window_with None.

Definition track_a : MediaStreamTrack.t := MediaStreamTrack.mk 1 "a" "audio".
Definition track_b : MediaStreamTrack.t := MediaStreamTrack.mk 2 "b" "audio".
(** Another track object that carries the identifier of [track_a]. *)
Definition track_a_twin : MediaStreamTrack.t := MediaStreamTrack.mk 3 "a" "audio".
Definition video_track : MediaStreamTrack.t := MediaStreamTrack.mk 4 "v" "video".

(** The mixer [new AudioTrackMixer()] gives in [chrome_window]. *)
Definition fresh_mixer : AudioTrackMixer :=
  {| audioContext :=
       {| node_count := 3; gain_value := ∅; connections := {[ (1, 2) ]} ∪ ∅;
          time_domain := ["128"; "200"; "028"; "128"]%byte;
          state := running; onstatechange := true |};
     destinationNode :=
       {| destination_id := 0; stream := [MediaStreamTrack.mk 0 "mixed" "audio"] |};
     caches := [];
     analyserSourceNode := 1;
     analyser := Some {| analyser_id := 2; frequencyBinCount := 4 |};
     timeDomainData := ["000"; "000"; "000"; "000"]%byte |}.

Definition fresh_state : State := {| this := fresh_mixer; enabled := ∅ |}.

(** [fresh_state] after [addTrack(track_a)]. *)
Definition state_a : State := after (call_addTrack track_a) fresh_state.

(** ... and after [addTrack(track_b)] as well. *)
Definition state_ab : State := after (call_addTrack track_b) state_a.

(** ** The meter, in exact arithmetic *)

(** The distance of a sample from the baseline 128. *)
Definition deviation (b : byte) : Z := Z.abs (Z.of_N (Byte.to_N b) - 128).

(** The largest deviation over a buffer (0 for an empty one). *)
Definition peak (data : list byte) : Z :=
  fold_left (fun m b => Z.max m (deviation b)) data 0%Z.

(** The integers [0 .. n]. *)
Definition upto (n : nat) : list Z := map Z.of_nat (seq 0 (S n)).

(** Checks of the binary64 operations of the meter on every value they can
    meet: the peak stays an integer in [0, 128], scaling and flooring it is
    exact, and the result is in [0, 100]. *)
Definition max_table : bool :=
  forallb (fun m =>
    forallb (fun d =>
      Leibniz.eqb (Math_max (float_of_Z m) (float_of_Z d)) (float_of_Z (Z.max m d)))
      (upto 128)) (upto 128).

Definition floor_table : bool :=
  forallb (fun m =>
    Leibniz.eqb (Math_floor ((float_of_Z m / BASE) * 100)%float)
                (float_of_Z (m * 100 / 128)))
    (upto 128).

Definition range_table : bool :=
  forallb (fun z => (0 <=? float_of_Z z)%float && (float_of_Z z <=? 100)%float) (upto 100).

(** ** Hosts for the capture helpers *)

Definition bowser_of (name version : string) : Bowser :=
  {| getBrowser_name := Some name; getBrowser_version := Some version;
     getPlatform_type := Some "desktop"; getEngine_name := Some "Trident";
     getEngine_version := Some "7.0" |}.

(** No capture method on [Audio.prototype], and neither Safari nor old Edge. *)
Definition ie_host : Host :=
  {| Audio_prototype_captureStream := false; Audio_prototype_mozCaptureStream := false;
     browser := bowser_of "Internet Explorer" "11.0" |}.

Definition chrome_host : Host :=
  {| Audio_prototype_captureStream := true; Audio_prototype_mozCaptureStream := false;
     browser := bowser_of "Chrome" "120.0" |}.

Definition firefox_host : Host :=
  {| Audio_prototype_captureStream := false; Audio_prototype_mozCaptureStream := true;
     browser := bowser_of "Firefox" "60.0" |}.

Definition safari_host : Host :=
  {| Audio_prototype_captureStream := false; Audio_prototype_mozCaptureStream := false;
     browser := bowser_of "Safari" "13.1" |}.

Definition song : HTMLMediaElement :=
  {| captureStream := [track_a; video_track; track_b];
     mozCaptureStream := [track_a; video_track; track_b];
     audioTracks := Some [ {| audioTrack_id := "1"; audioTrack_enabled := true |} ] |}.

(** A mixer whose [analyser] field is empty (the constructor never leaves
    one; the meter guards against it all the same). *)
Definition deaf_state : State :=
  {| this :=
       {| audioContext := audioContext fresh_mixer;
          destinationNode := destinationNode fresh_mixer;
          caches := []; analyserSourceNode := 1; analyser := None;
          timeDomainData := timeDomainData fresh_mixer |};
     enabled := ∅ |}.

(** The mixer once the gain of node [g] has been set to [v]. *)
Definition mixer_with_gain (m : AudioTrackMixer) (g : NodeId) (v : float) : AudioTrackMixer :=
  with_audioContext m
    (with_gain_value (audioContext m) (<[g := v]> (gain_value (audioContext m)))).

(** The state once the [enabled] flag of the track object [t] has been
    written. *)
Definition state_with_flag (s : State) (t : MediaStreamTrack.t) (b : bool) : State :=
  {| this := this s; enabled := <[MediaStreamTrack.obj t := b]> (enabled s) |}.

(** ** The rest of [utils/agent.ts] *)

(** What the user-agent parser reports about the operating system. *)
Record BowserOS := {
  getOS_name : option string;
  getOS_version : option string;
  getOS_versionName : option string
}.

Record SystemInfo := {
  system_name : string;
  system_version : string;
  system_versionName : string
}.

Definition getSystemInfo (os : BowserOS) : SystemInfo :=
  {| system_name := string_or (getOS_name os) "unknown";
     system_version := string_or (getOS_version os) "unknown";
     system_versionName := string_or (getOS_versionName os) "unknown" |}.

Definition isChrome (browser : Bowser) : bool :=
  let browserInfo := getBrowserInfo browser in
  String.eqb (toLowerCase (name browserInfo)) "chrome".

Definition isFirefox (browser : Bowser) : bool :=
  let browserInfo := getBrowserInfo browser in
  String.eqb (toLowerCase (name browserInfo)) "firefox".

Definition isEdge (browser : Bowser) : bool :=
  let browserInfo := getBrowserInfo browser in
  String.eqb (toLowerCase (name browserInfo)) "microsoft edge".

Definition isWeChat (browser : Bowser) : bool :=
  let browserInfo := getBrowserInfo browser in
  String.eqb (toLowerCase (name browserInfo)) "wechat".

Definition isIOS (os : BowserOS) : bool :=
  let systemInfo := getSystemInfo os in
  String.eqb (toLowerCase (system_name systemInfo)) "ios".

Definition isMacOS (os : BowserOS) : bool :=
  let systemInfo := getSystemInfo os in
  String.eqb (toLowerCase (system_name systemInfo)) "macos".

(** How many of a list of tests hold. *)
Definition count_true (bs : list bool) : nat := length (List.filter (fun b => b) bs).

(** ** What a history keeps, besides the wiring *)

(** Every entry of the registry is stored under the identifier of its track,
    the track is of kind "audio", its wrapper stream holds that track alone,
    and its gain node has a gain. *)
Definition registrations_sound (m : AudioTrackMixer) : Prop :=
  ∀ k c, (k, c) ∈ caches m →
    MediaStreamTrack.id (track c) = k
    ∧ MediaStreamTrack.kind (track c) = "audio"
    ∧ mediaStream c = [track c]
    ∧ is_Some (gain_value (audioContext m) !! gainNode c).

(** The destination's stream carries one track, of kind "audio". *)
Definition mixed_output (m : AudioTrackMixer) : Prop :=
  ∃ obj id, stream (destinationNode m) = [MediaStreamTrack.mk obj id "audio"].

(** There is an analyser and the sample buffer has its bin count. *)
Definition buffer_fits (m : AudioTrackMixer) : Prop :=
  ∃ an, analyser m = Some an ∧ length (timeDomainData m) = frequencyBinCount an.

Record steady (m : AudioTrackMixer) : Prop := {
  steady_registrations : registrations_sound m;
  steady_output : mixed_output m;
  steady_buffer : buffer_fits m
}.

(** The exception a completion carries, if it is abrupt. *)
Definition thrown {S A} (c : Completion S A) : option Exception :=
  match c with Normal _ _ => None | Abrupt e _ => Some e end.

(** The value a completion carries, if it is normal. *)
Definition returned {S A} (c : Completion S A) : option A :=
  match c with Normal v _ => Some v | Abrupt _ _ => None end.

(** A host with the standard class unable to create a stream destination
    and a capable prefixed class behind it. *)
Definition shadowed_window : Window :=
  {| window_AudioContext := Some old_edge_class;
     window_webkitAudioContext := Some chrome_class;
     window_mozAudioContext := None; window_msAudioContext := None;
     window_oAudioContext := None |}.

(** The readings 0 and 100 are told apart from every other reading. *)
Definition reading_table : bool :=
  forallb (fun z =>
    Bool.eqb (Leibniz.eqb (float_of_Z z) 100%float) (z =? 100)%Z
    && Bool.eqb (Leibniz.eqb (float_of_Z z) 0%float) (z =? 0)%Z)
    (upto 100).

(** The loop of the meter, as [getMixedTrackVolume] runs it over a buffer. *)
Definition meter_peak (data : list byte) : float :=
  fold_left (fun max item => Math_max max (Math_abs (number_of_byte item - BASE)%float))
            data 0%float.


(** * Properties *)

(** ** The [Map] *)
Section JsMap_theory.
Context {V : Type}.
Implicit Types (m : JsMap.t V) (k : string) (v : V).

Lemma get_set_eq m k v : JsMap.get (JsMap.set m k v) k = Some v.
Proof.
  induction m as [|[k' v'] m IH]; simpl.
  - by rewrite String.eqb_refl.
  - destruct (String.eqb_spec k' k) as [->|Hne]; simpl.
    + by rewrite String.eqb_refl.
    + by destruct (String.eqb_spec k' k).
Qed.

Lemma get_set_ne m k k' v : k ≠ k' → JsMap.get (JsMap.set m k v) k' = JsMap.get m k'.
Proof.
  intros Hne. induction m as [|[k0 v0] m IH]; simpl.
  - by destruct (String.eqb_spec k k').
  - destruct (String.eqb_spec k0 k) as [->|Hk]; simpl.
    + by destruct (String.eqb_spec k k').
    + by rewrite IH.
Qed.

Lemma get_delete_eq m k : JsMap.get (JsMap.delete m k) k = None.
Proof.
  induction m as [|[k' v'] m IH]; simpl; [done|].
  destruct (String.eqb_spec k' k) as [->|Hne]; simpl; [done|].
  by destruct (String.eqb_spec k' k).
Qed.

Lemma get_delete_ne m k k' : k ≠ k' → JsMap.get (JsMap.delete m k) k' = JsMap.get m k'.
Proof.
  intros Hne. induction m as [|[k0 v0] m IH]; simpl; [done|].
  destruct (String.eqb_spec k0 k) as [->|Hk]; simpl.
  - by destruct (String.eqb_spec k k').
  - by rewrite IH.
Qed.

Lemma get_None_keys m k : JsMap.get m k = None ↔ k ∉ JsMap.keys m.
Proof.
  induction m as [|[k' v'] m IH]; simpl.
  - split; [intros _; apply not_elem_of_nil | done].
  - rewrite not_elem_of_cons. destruct (String.eqb_spec k' k) as [->|Hne].
    + split; [done | intros [? _]; done].
    + rewrite IH. split; [intros H; split; [congruence|done] | tauto].
Qed.

Lemma get_Some_elem m k v : JsMap.get m k = Some v → (k, v) ∈ m.
Proof.
  induction m as [|[k' v'] m IH]; simpl; [done|].
  destruct (String.eqb_spec k' k) as [->|Hne].
  - intros [= ->]. apply list_elem_of_here.
  - intros H. apply list_elem_of_further. auto.
Qed.

Lemma elem_get_Some m k v : NoDup (JsMap.keys m) → (k, v) ∈ m → JsMap.get m k = Some v.
Proof.
  induction m as [|[k' v'] m IH]; simpl.
  - intros _ H. by apply elem_of_nil in H.
  - intros Hnd Hin. apply NoDup_cons in Hnd as [Hk Hnd].
    apply elem_of_cons in Hin as [[= <- <-]|Hin].
    + by rewrite String.eqb_refl.
    + destruct (String.eqb_spec k' k) as [->|Hne]; [|by apply IH].
      exfalso. apply Hk. apply list_elem_of_fmap. by exists (k, v).
Qed.

Lemma set_absent m k v : JsMap.get m k = None → JsMap.set m k v = (m ++ [(k, v)])%list.
Proof.
  induction m as [|[k' v'] m IH]; simpl; [done|].
  destruct (String.eqb_spec k' k) as [->|Hne]; [done|].
  intros H. by rewrite IH.
Qed.

Lemma delete_absent m k : JsMap.get m k = None → JsMap.delete m k = m.
Proof.
  induction m as [|[k' v'] m IH]; simpl; [done|].
  destruct (String.eqb_spec k' k) as [->|Hne]; [done|].
  intros H. by rewrite IH.
Qed.

Lemma keys_delete_subset m k k' : k' ∈ JsMap.keys (JsMap.delete m k) → k' ∈ JsMap.keys m.
Proof.
  induction m as [|[k0 v0] m IH]; simpl; [done|].
  destruct (String.eqb_spec k0 k) as [->|Hne]; simpl.
  - intros H. apply list_elem_of_further. auto.
  - rewrite !elem_of_cons. tauto.
Qed.

Lemma NoDup_keys_delete m k : NoDup (JsMap.keys m) → NoDup (JsMap.keys (JsMap.delete m k)).
Proof.
  induction m as [|[k0 v0] m IH]; simpl; [done|].
  intros Hnd. apply NoDup_cons in Hnd as [Hk Hnd].
  destruct (String.eqb_spec k0 k) as [->|Hne]; simpl; [auto|].
  apply NoDup_cons. split; [|auto].
  intros H. apply Hk. by eapply keys_delete_subset.
Qed.

Lemma NoDup_keys_append m k v :
  NoDup (JsMap.keys m) → JsMap.get m k = None → NoDup (JsMap.keys (m ++ [(k, v)])%list).
Proof.
  intros Hnd Hk. unfold JsMap.keys. rewrite map_app. simpl.
  apply NoDup_app. split; [done|]. split.
  - intros x Hx Hx'. apply list_elem_of_singleton in Hx' as ->.
    by apply get_None_keys in Hk.
  - apply NoDup_singleton.
Qed.

(** Deleting a present key of a map with unique keys removes one entry. *)
Lemma delete_present m k v :
  NoDup (JsMap.keys m) → JsMap.get m k = Some v →
  ∃ m1 m2, m = (m1 ++ (k, v) :: m2)%list ∧ JsMap.delete m k = (m1 ++ m2)%list.
Proof.
  induction m as [|[k' v'] m IH]; simpl; [done|].
  intros Hnd Hget. apply NoDup_cons in Hnd as [Hk Hnd].
  destruct (String.eqb_spec k' k) as [->|Hne].
  - injection Hget as ->. exists [], m. split; [done|]. simpl.
    apply delete_absent. by apply get_None_keys.
  - destruct (IH Hnd Hget) as (m1 & m2 & -> & Hdel).
    exists ((k', v') :: m1), m2. split; [done|]. simpl. by rewrite Hdel.
Qed.
End JsMap_theory.

(** ** Running a method *)

Lemma check_kind_audio (t : MediaStreamTrack.t) (s : State) :
  MediaStreamTrack.kind t = "audio" → check_kind t s = Normal tt s.
Proof. unfold check_kind. intros ->. reflexivity. Qed.

Lemma check_kind_other (t : MediaStreamTrack.t) (s : State) :
  MediaStreamTrack.kind t ≠ "audio" → check_kind t s = Abrupt not_an_audio_track s.
Proof.
  unfold check_kind. intros Hk.
  destruct (String.eqb_spec (MediaStreamTrack.kind t) "audio") as [|_]; [done|].
  by rewrite orb_true_r.
Qed.

Ltac unfold_method :=
  unfold mbind, Method_bind, bind, caches_get, get_this, set_this, set_enabled,
    on_context, set_gain, ret, throw; simpl.

Lemma state_eta (s : State) : {| this := this s; enabled := enabled s |} = s.
Proof. by destruct s. Qed.

Lemma with_caches_id (m : AudioTrackMixer) : with_caches m (caches m) = m.
Proof. by destruct m. Qed.

Lemma with_audioContext_id (m : AudioTrackMixer) : with_audioContext m (audioContext m) = m.
Proof. by destruct m. Qed.

(** ** [addTrack] *)

Lemma addTrack_fresh (t : MediaStreamTrack.t) (s : State) :
  MediaStreamTrack.kind t = "audio" →
  JsMap.get (caches (this s)) (MediaStreamTrack.id t) = None →
  addTrack t s
  = Normal (mixer_after_add (this s) t)
      {| this := mixer_after_add (this s) t; enabled := enabled s |}.
Proof.
  intros Hkind Hget. unfold addTrack.
  unfold mbind at 1, Method_bind at 1, bind at 1.
  rewrite (check_kind_audio _ _ Hkind).
  unfold_method. rewrite Hget. simpl.
  unfold createMediaStreamSource, MediaStream_addTrack, new_MediaStream. simpl.
  unfold is_audio. rewrite Hkind. simpl. reflexivity.
Qed.

Lemma addTrack_duplicate (t : MediaStreamTrack.t) (s : State) (c : TrackCache) :
  MediaStreamTrack.kind t = "audio" →
  JsMap.get (caches (this s)) (MediaStreamTrack.id t) = Some c →
  addTrack t s = Abrupt (already_added (MediaStreamTrack.id t)) s.
Proof.
  intros Hkind Hget. unfold addTrack.
  unfold mbind at 1, Method_bind at 1, bind at 1.
  rewrite (check_kind_audio _ _ Hkind).
  unfold_method. by rewrite Hget.
Qed.

Lemma addTrack_not_audio (t : MediaStreamTrack.t) (s : State) :
  MediaStreamTrack.kind t ≠ "audio" → addTrack t s = Abrupt not_an_audio_track s.
Proof.
  intros Hkind. unfold addTrack.
  unfold mbind at 1, Method_bind at 1, bind at 1.
  by rewrite (check_kind_other _ _ Hkind).
Qed.

(** C1: [addTrack] throws "not an audio track" for a track whose kind is not
    "audio" and an "already added" error when the identifier is registered,
    in both cases in an unchanged state; otherwise it returns the mixer
    itself, in which the track is registered under its identifier with a
    source node and a gain node that did not exist before, the gain at unity,
    the source wired to the gain and the gain to the destination. *)
Theorem addTrack_contract (s : State) (t : MediaStreamTrack.t) :
  (MediaStreamTrack.kind t ≠ "audio" →
     addTrack t s = Abrupt not_an_audio_track s)
  ∧ (MediaStreamTrack.kind t = "audio" →
     (∃ c, registered (this s) (MediaStreamTrack.id t) c) →
     addTrack t s = Abrupt (already_added (MediaStreamTrack.id t)) s)
  ∧ (MediaStreamTrack.kind t = "audio" →
     JsMap.get (caches (this s)) (MediaStreamTrack.id t) = None →
     ∃ s' c,
       addTrack t s = Normal (this s') s'
       ∧ registered (this s') (MediaStreamTrack.id t) c
       ∧ track c = t
       ∧ mediaStream c = [t]
       ∧ (node_count (audioContext (this s)) ≤ sourceNode c)%nat
       ∧ (node_count (audioContext (this s)) ≤ gainNode c)%nat
       ∧ sourceNode c ≠ gainNode c
       ∧ gain_value (audioContext (this s')) !! gainNode c = Some 1%float
       ∧ wired (this s') (sourceNode c) (gainNode c)
       ∧ destinationNode (this s') = destinationNode (this s)
       ∧ (∀ id', id' ≠ MediaStreamTrack.id t →
            JsMap.get (caches (this s')) id' = JsMap.get (caches (this s)) id')
       ∧ enabled s' = enabled s).
Proof.
  split; [apply addTrack_not_audio|]. split.
  - intros Hkind [c Hc]. by eapply addTrack_duplicate.
  - intros Hkind Hget.
    exists {| this := mixer_after_add (this s) t; enabled := enabled s |},
           (cache_for t (audioContext (this s))).
    split; [by apply addTrack_fresh|]. simpl.
    split; [apply get_set_eq|].
    repeat split; simpl; try lia.
    + apply lookup_insert_eq.
    + set_solver.
    + unfold destination. simpl. set_solver.
    + intros id' Hne. apply get_set_ne. congruence.
Qed.

(** ** The registrations' edges *)

Lemma elem_of_edges_of (d : NodeId) (cs : list TrackCache) (e : NodeId * NodeId) :
  e ∈ edges_of d cs
  ↔ ∃ c, c ∈ cs ∧ (e = (sourceNode c, gainNode c) ∨ e = (gainNode c, d)).
Proof.
  induction cs as [|c cs IH]; simpl.
  - split; [set_solver|]. intros (c & Hc & _). by apply elem_of_nil in Hc.
  - rewrite !elem_of_union, !elem_of_singleton, IH. split.
    + intros [[->| ->]|(c' & Hc' & He)].
      * exists c. split; [apply list_elem_of_here | by left].
      * exists c. split; [apply list_elem_of_here | by right].
      * exists c'. split; [by apply list_elem_of_further | done].
    + intros (c' & Hc' & He). apply elem_of_cons in Hc' as [->|Hc'].
      * left. tauto.
      * right. by exists c'.
Qed.

Lemma edges_of_app (d : NodeId) (cs1 cs2 : list TrackCache) :
  edges_of d (cs1 ++ cs2) = edges_of d cs1 ∪ edges_of d cs2.
Proof.
  induction cs1 as [|c cs1 IH]; simpl; [set_solver|]. rewrite IH. set_solver.
Qed.

Lemma NoDup_fmap_inj {A B} (f : A → B) (l : list A) (x y : A) :
  NoDup (map f l) → x ∈ l → y ∈ l → f x = f y → x = y.
Proof.
  induction l as [|a l IH]; simpl.
  - intros _ Hx. by apply elem_of_nil in Hx.
  - intros Hnd Hx Hy Hf. apply NoDup_cons in Hnd as [Ha Hnd].
    apply elem_of_cons in Hx as [->|Hx]; apply elem_of_cons in Hy as [->|Hy]; auto.
    + exfalso. apply Ha. rewrite Hf. apply list_elem_of_fmap. by exists y.
    + exfalso. apply Ha. rewrite <- Hf. apply list_elem_of_fmap. by exists x.
Qed.

Lemma values_elem {V} (m : JsMap.t V) (v : V) :
  v ∈ JsMap.values m ↔ ∃ k, (k, v) ∈ m.
Proof.
  unfold JsMap.values. split.
  - intros H. apply list_elem_of_fmap in H as ([k v'] & -> & H). by exists k.
  - intros [k H]. apply list_elem_of_fmap. by exists (k, v).
Qed.

(** A well-formed mixer satisfies the invariant of the data model. *)
Lemma well_formed_invariant (m : AudioTrackMixer) :
  well_formed m → registry_invariant m.
Proof.
  intros [Hkeys Hgains Hcreated Hgd (an & tap & Han & -> & _ & Hand & Hang & Hconn) _].
  split; [done|]. intros s g. unfold wired, registered. rewrite Hconn.
  rewrite !elem_of_union, !elem_of_singleton, !elem_of_edges_of. split.
  - intros [Hsg Hgd'].
    destruct Hgd' as [(c & Hc & [He|He])|He]; [| |congruence].
    { injection He as -> He. exfalso. by eapply Hgd. }
    injection He as ->.
    destruct Hsg as [(c' & Hc' & [He|He])|He].
    + injection He as -> He.
      assert (c' = c) as -> by (eapply (NoDup_fmap_inj gainNode); eauto).
      apply values_elem in Hc as [id Hid]. exists id, c.
      split; [by apply elem_get_Some | done].
    + injection He as -> He. exfalso. by eapply Hgd.
    + injection He as -> He. exfalso. by eapply Hang.
  - intros (id & c & Hget & <- & <-).
    assert (c ∈ JsMap.values (caches m)) as Hc.
    { apply values_elem. exists id. by apply get_Some_elem. }
    split; left; exists c; (split; [done|]); [by left | by right].
Qed.

(** Anything that leaves the registry, the connections and the node
    identities alone keeps a mixer well formed. *)
Lemma well_formed_frame (m m' : AudioTrackMixer) :
  caches m' = caches m →
  connections (audioContext m') = connections (audioContext m) →
  node_count (audioContext m') = node_count (audioContext m) →
  destinationNode m' = destinationNode m →
  analyser m' = analyser m →
  analyserSourceNode m' = analyserSourceNode m →
  well_formed m → well_formed m'.
Proof.
  intros Hc Hconn Hn Hd Ha Hs [Hkeys Hgains Hcreated Hgd Htap Hdest].
  unfold destination in *.
  split; unfold destination; rewrite ?Hc, ?Hconn, ?Hn, ?Hd, ?Ha, ?Hs; done.
Qed.

Lemma constructor_well_formed (w : Window) (m : AudioTrackMixer) (c : option AudioContext) :
  constructor w = Normal m c → well_formed m.
Proof.
  unfold constructor. destruct (AudioContextClass_of w) as [cls|]; [|done].
  destruct (negb _ || negb _); [done|].
  unfold createMediaStreamDestination, createMediaStreamSource, createAnalyser. simpl.
  intros [= <- _].
  split; simpl; try apply NoDup_nil_2;
    try (intros c' Hc'; by apply elem_of_nil in Hc'); unfold destination; simpl; try lia.
  eexists _, _. split; [done|]. split; [done|]. simpl.
  repeat split; try lia; try set_solver.
Qed.

(** ** Unwiring registrations *)

Lemma with_connections_same (m : AudioTrackMixer) :
  with_audioContext m (with_connections (audioContext m) (connections (audioContext m))) = m.
Proof. destruct m as [[] ? ? ? ? ?]; reflexivity. Qed.

(** The two [disconnect] calls that [removeTrack] and [destroy] make for a
    registration succeed when both edges are there. *)
Lemma unwire_run (c : TrackCache) (s : State) :
  (gainNode c, destination (this s)) ∈ connections (audioContext (this s)) →
  (sourceNode c, gainNode c) ∈ connections (audioContext (this s)) →
  gainNode c ≠ destination (this s) →
  (m ← get_this;
   on_context (disconnect (gainNode c) (destination_id (destinationNode m)));;
   on_context (disconnect (sourceNode c) (gainNode c))) s
  = Normal tt
      {| this := with_audioContext (this s)
                   (with_connections (audioContext (this s))
                      (connections (audioContext (this s))
                         ∖ {[ (gainNode c, destination (this s)) ]}
                         ∖ {[ (sourceNode c, gainNode c) ]}));
         enabled := enabled s |}.
Proof.
  intros Hgd Hsg Hne. unfold destination in *. unfold_method. unfold disconnect.
  rewrite decide_True by done. simpl.
  rewrite decide_True; [done|].
  apply elem_of_difference. split; [done|].
  rewrite elem_of_singleton. intros [= _ ?]. done.
Qed.

Lemma forEach_unwire (cs : list TrackCache) : ∀ s : State,
  NoDup (map gainNode cs) →
  (∀ c, c ∈ cs → gainNode c ≠ destination (this s)) →
  edges_of (destination (this s)) cs ⊆ connections (audioContext (this s)) →
  forEach (fun cache : TrackCache =>
             m ← get_this;
             on_context (disconnect (gainNode cache) (destination_id (destinationNode m)));;
             on_context (disconnect (sourceNode cache) (gainNode cache))) cs s
  = Normal tt
      {| this := with_audioContext (this s)
                   (with_connections (audioContext (this s))
                      (connections (audioContext (this s))
                         ∖ edges_of (destination (this s)) cs));
         enabled := enabled s |}.
Proof.
  induction cs as [|c cs IH]; intros s Hnd Hgd Hsub.
  - simpl. unfold ret. rewrite difference_empty_L, with_connections_same.
    by rewrite state_eta.
  - cbn [forEach]. unfold mbind at 1, Method_bind at 1, bind at 1.
    change (map gainNode (c :: cs)) with (gainNode c :: map gainNode cs) in Hnd.
    apply NoDup_cons in Hnd as [Hc Hnd].
    assert (gainNode c ≠ destination (this s)) as Hcd by (apply Hgd, list_elem_of_here).
    cbn [edges_of] in Hsub.
    assert ((gainNode c, destination (this s)) ∈ connections (audioContext (this s))) as Hin1.
    { apply Hsub. apply elem_of_union_l, elem_of_union_r. by apply elem_of_singleton. }
    assert ((sourceNode c, gainNode c) ∈ connections (audioContext (this s))) as Hin2.
    { apply Hsub. apply elem_of_union_l, elem_of_union_l. by apply elem_of_singleton. }
    assert (edges_of (destination (this s)) cs ⊆ connections (audioContext (this s))) as Hsub'.
    { intros e He. apply Hsub. by apply elem_of_union_r. }
    clear Hsub.
    rewrite unwire_run; [| done | done | done].
    rewrite IH; clear IH; simpl; unfold destination in *; simpl.
    + do 2 f_equal. unfold with_audioContext, with_connections. simpl. do 2 f_equal.
      apply set_eq. intros e.
      rewrite !elem_of_difference, !elem_of_union, !elem_of_singleton. tauto.
    + done.
    + intros c' Hc'. apply Hgd. by apply list_elem_of_further.
    + intros e He. pose proof He as He'.
      apply elem_of_edges_of in He' as (c' & Hc' & Hcase).
      assert (gainNode c' ≠ gainNode c) as Hdiff.
      { intros Heq. apply Hc. rewrite <- Heq. apply list_elem_of_fmap. by exists c'. }
      assert (gainNode c' ≠ destination_id (destinationNode (this s))) as Hd'
        by (apply Hgd; by apply list_elem_of_further).
      rewrite !elem_of_difference, !elem_of_singleton.
      split; [split; [by apply Hsub'|]|]; destruct Hcase as [-> | ->]; congruence.
Qed.

(** ** [removeTrack] and [destroy], step by step *)

Lemma removeTrack_not_audio (t : MediaStreamTrack.t) (s : State) :
  MediaStreamTrack.kind t ≠ "audio" → removeTrack t s = Abrupt not_an_audio_track s.
Proof.
  intros Hkind. unfold removeTrack.
  unfold mbind at 1, Method_bind at 1, bind at 1.
  by rewrite (check_kind_other _ _ Hkind).
Qed.

Lemma removeTrack_absent (t : MediaStreamTrack.t) (s : State) :
  MediaStreamTrack.kind t = "audio" →
  JsMap.get (caches (this s)) (MediaStreamTrack.id t) = None →
  removeTrack t s = Normal (this s) s.
Proof.
  intros Hkind Hget. unfold removeTrack.
  unfold mbind at 1, Method_bind at 1, bind at 1.
  rewrite (check_kind_audio _ _ Hkind).
  unfold_method. by rewrite Hget.
Qed.

Lemma removeTrack_present (t : MediaStreamTrack.t) (s : State) (c : TrackCache) :
  MediaStreamTrack.kind t = "audio" →
  JsMap.get (caches (this s)) (MediaStreamTrack.id t) = Some c →
  (gainNode c, destination (this s)) ∈ connections (audioContext (this s)) →
  (sourceNode c, gainNode c) ∈ connections (audioContext (this s)) →
  gainNode c ≠ destination (this s) →
  removeTrack t s
  = Normal (mixer_after_remove (this s) (MediaStreamTrack.id t) c)
      {| this := mixer_after_remove (this s) (MediaStreamTrack.id t) c;
         enabled := enabled s |}.
Proof.
  intros Hkind Hget Hgd Hsg Hne. unfold removeTrack.
  unfold mbind at 1, Method_bind at 1, bind at 1.
  rewrite (check_kind_audio _ _ Hkind).
  unfold mbind at 1, Method_bind at 1, bind at 1.
  unfold mbind at 1, Method_bind at 1, bind at 1.
  unfold caches_get at 1. unfold mbind at 1, Method_bind at 1, bind at 1.
  unfold get_this at 1. unfold ret at 1. rewrite Hget.
  pose proof (unwire_run c s Hgd Hsg Hne) as Hrun.
  unfold mbind at 1, Method_bind at 1, bind at 1.
  unfold mbind at 1, Method_bind at 1, bind at 1 in Hrun.
  unfold get_this at 1 in Hrun. unfold get_this at 1.
  unfold mbind at 1, Method_bind at 1, bind at 1.
  unfold mbind at 1, Method_bind at 1, bind at 1 in Hrun.
  destruct (on_context (disconnect (gainNode c) _) s) as [[] s1|e s1]; [|done].
  unfold mbind at 1, Method_bind at 1, bind at 1.
  rewrite Hrun. reflexivity.
Qed.

Lemma well_formed_edges (m : AudioTrackMixer) (c : TrackCache) :
  well_formed m → c ∈ JsMap.values (caches m) →
  (gainNode c, destination m) ∈ connections (audioContext m)
  ∧ (sourceNode c, gainNode c) ∈ connections (audioContext m)
  ∧ gainNode c ≠ destination m.
Proof.
  intros [_ _ _ Hgd (an & tap & _ & _ & _ & _ & _ & Hconn) _] Hc.
  rewrite Hconn, !elem_of_union, !elem_of_edges_of.
  split; [|split; [|by apply Hgd]]; left; exists c; tauto.
Qed.

Lemma registered_values (m : AudioTrackMixer) (id : string) (c : TrackCache) :
  JsMap.get (caches m) id = Some c → c ∈ JsMap.values (caches m).
Proof. intros H. apply values_elem. exists id. by apply get_Some_elem. Qed.

Lemma destroy_run (s : State) :
  well_formed (this s) →
  destroy s = on_context close {| this := mixer_unwired (this s); enabled := enabled s |}.
Proof.
  intros Hwf. unfold destroy.
  unfold mbind at 1, Method_bind at 1, bind at 1. unfold get_this at 1.
  unfold mbind at 1, Method_bind at 1, bind at 1.
  rewrite forEach_unwire.
  - reflexivity.
  - apply Hwf.
  - intros c Hc. by apply Hwf.
  - intros e He. apply elem_of_edges_of in He as (c & Hc & He).
    destruct (well_formed_edges _ _ Hwf Hc) as (H1 & H2 & _).
    by destruct He as [-> | ->].
Qed.

(** ** Every event keeps the mixer well formed *)

Lemma values_app {V} (m1 m2 : JsMap.t V) :
  JsMap.values (m1 ++ m2)%list = (JsMap.values m1 ++ JsMap.values m2)%list.
Proof. unfold JsMap.values. apply map_app. Qed.

Lemma well_formed_after_add (m : AudioTrackMixer) (t : MediaStreamTrack.t) :
  well_formed m →
  JsMap.get (caches m) (MediaStreamTrack.id t) = None →
  well_formed (mixer_after_add m t).
Proof.
  intros [Hkeys Hgains Hcreated Hgd (an & tap & Han & -> & Hanc & Hand & Hang & Hconn) Hdest] Hget.
  unfold mixer_after_add, destination in *.
  split; unfold destination; simpl; rewrite ?(set_absent _ _ _ Hget), ?values_app; simpl.
  - by apply NoDup_keys_append.
  - rewrite map_app. simpl. apply NoDup_app. split; [done|]. split; [|apply NoDup_singleton].
    intros g Hg Hg'. apply list_elem_of_singleton in Hg' as ->.
    apply list_elem_of_fmap in Hg as (c & Heq & Hc). apply Hcreated in Hc. lia.
  - intros c Hc. apply elem_of_app in Hc as [Hc|Hc].
    + apply Hcreated in Hc. lia.
    + apply list_elem_of_singleton in Hc as ->. simpl. lia.
  - intros c Hc. apply elem_of_app in Hc as [Hc|Hc]; [by apply Hgd|].
    apply list_elem_of_singleton in Hc as ->. simpl. lia.
  - exists an, (analyserSourceNode m, analyser_id an).
    split; [done|]. split; [done|]. split; [lia|]. split; [done|]. split.
    + intros c Hc. apply elem_of_app in Hc as [Hc|Hc]; [by apply Hang|].
      apply list_elem_of_singleton in Hc as ->. simpl. lia.
    + rewrite edges_of_app, Hconn. simpl. apply set_eq. intros e.
      rewrite !elem_of_union, !elem_of_singleton, elem_of_empty. tauto.
  - lia.
Qed.

Lemma edges_of_avoid (d : NodeId) (cs : list TrackCache) (s g : NodeId) (e : NodeId * NodeId) :
  e ∈ edges_of d cs →
  (∀ c, c ∈ cs → gainNode c ≠ g) →
  (∀ c, c ∈ cs → gainNode c ≠ d) →
  g ≠ d →
  e ≠ (g, d) ∧ e ≠ (s, g).
Proof.
  intros He Hg Hd Hgd. apply elem_of_edges_of in He as (c & Hc & He).
  specialize (Hg c Hc). specialize (Hd c Hc).
  destruct He as [-> | ->]; split; congruence.
Qed.

Lemma well_formed_after_remove (m : AudioTrackMixer) (id : string) (c : TrackCache) :
  well_formed m →
  JsMap.get (caches m) id = Some c →
  well_formed (mixer_after_remove m id c).
Proof.
  intros Hwf Hget. pose proof Hwf as Hwf'.
  destruct Hwf' as [Hkeys Hgains Hcreated Hgd (an & tap & Han & -> & Hanc & Hand & Hang & Hconn) Hdest].
  destruct (delete_present _ _ _ Hkeys Hget) as (m1 & m2 & Hsplit & Hdel).
  unfold mixer_after_remove, destination in *.
  rewrite Hsplit in Hgains, Hcreated, Hgd, Hang, Hconn.
  rewrite values_app in Hgains, Hcreated, Hgd, Hang, Hconn.
  change (JsMap.values ((id, c) :: m2)) with (c :: JsMap.values m2) in *.
  rewrite map_app in Hgains. cbn [map] in Hgains.
  apply NoDup_app in Hgains as (Hg1 & Hg12 & Hg2).
  apply NoDup_cons in Hg2 as [Hgc Hg2].
  assert (∀ c', c' ∈ (JsMap.values m1 ++ JsMap.values m2)%list → gainNode c' ≠ gainNode c) as Hdiff.
  { intros c' Hc' Heq. apply elem_of_app in Hc' as [Hc'|Hc'].
    - apply (Hg12 (gainNode c')); [apply list_elem_of_fmap; by exists c'|].
      rewrite Heq. apply list_elem_of_here.
    - apply Hgc. rewrite <- Heq. apply list_elem_of_fmap. by exists c'. }
  assert (∀ c', c' ∈ (JsMap.values m1 ++ JsMap.values m2)%list →
                c' ∈ (JsMap.values m1 ++ c :: JsMap.values m2)%list) as Hincl.
  { intros c'. rewrite !elem_of_app, elem_of_cons. tauto. }
  split; unfold destination; simpl; rewrite ?Hdel, ?values_app.
  - rewrite <- Hdel. by apply NoDup_keys_delete.
  - rewrite map_app. apply NoDup_app. split; [done|]. split; [|done].
    intros g Hg Hg'. apply (Hg12 g Hg). by apply list_elem_of_further.
  - intros c' Hc'. apply Hcreated. auto.
  - intros c' Hc'. apply Hgd. auto.
  - exists an, (analyserSourceNode m, analyser_id an).
    split; [done|]. split; [done|]. split; [done|]. split; [done|]. split.
    + intros c' Hc'. apply Hang. auto.
    + rewrite Hconn, !edges_of_app. cbn [edges_of]. apply set_eq. intros e.
      rewrite !elem_of_difference, !elem_of_union, !elem_of_singleton.
      assert (gainNode c ≠ destination_id (destinationNode m)) as Hcd.
      { apply Hgd. rewrite elem_of_app, elem_of_cons. tauto. }
      assert (gainNode c ≠ analyser_id an) as Hca.
      { apply Hang. rewrite elem_of_app, elem_of_cons. tauto. }
      split.
      * intros [[[[He|[[He|He]|He]]|He] Hn1] Hn2]; try tauto.
      * intros [[He|He]|He].
        -- destruct (edges_of_avoid _ _ (sourceNode c) (gainNode c) e He) as [? ?]; try tauto.
           ++ intros c' Hc'. apply Hdiff. rewrite elem_of_app. tauto.
           ++ intros c' Hc'. apply Hgd. rewrite elem_of_app, elem_of_cons. tauto.
        -- destruct (edges_of_avoid _ _ (sourceNode c) (gainNode c) e He) as [? ?]; try tauto.
           ++ intros c' Hc'. apply Hdiff. rewrite elem_of_app. tauto.
           ++ intros c' Hc'. apply Hgd. rewrite elem_of_app, elem_of_cons. tauto.
        -- split; [split; [tauto|]|]; intros ->; congruence.
  - done.
Qed.

Lemma well_formed_unwired (m : AudioTrackMixer) :
  well_formed m → well_formed (mixer_unwired m).
Proof.
  intros [Hkeys Hgains Hcreated Hgd (an & tap & Han & -> & Hanc & Hand & Hang & Hconn) Hdest].
  unfold mixer_unwired, destination in *.
  split; unfold destination; simpl; try apply NoDup_nil_2;
    try (intros c Hc; by apply elem_of_nil in Hc); [|done].
  exists an, (analyserSourceNode m, analyser_id an).
  split; [done|]. split; [done|]. split; [done|]. split; [done|]. split.
  - intros c Hc. by apply elem_of_nil in Hc.
  - rewrite Hconn. apply set_eq. intros e.
    rewrite elem_of_difference, !elem_of_union, elem_of_singleton, elem_of_empty.
    split; [tauto|]. intros [[]| ->]. split; [tauto|].
    intros He. apply elem_of_edges_of in He as (c & Hc & [He|He]); injection He as He1 He2.
    + by eapply Hang.
    + done.
Qed.

Lemma well_formed_closed (s : State) :
  well_formed (this s) → well_formed (this (final_state (on_context close s))).
Proof.
  intros Hwf. unfold on_context, close.
  destruct (state (audioContext (this s))); simpl;
    (eapply well_formed_frame; [..|exact Hwf]; reflexivity).
Qed.

Ltac frame_cases Hwf :=
  unfold check_kind; unfold_method;
  repeat match goal with
         | |- context [if ?b then _ else _] => destruct b; simpl
         | |- context [match JsMap.get ?m ?k with _ => _ end] => destruct (JsMap.get m k); simpl
         | |- context [match analyser ?m with _ => _ end] => destruct (analyser m) eqn:?; simpl
         | |- context [match to_float32 ?x with _ => _ end] => destruct (to_float32 x); simpl
         end;
  try exact Hwf;
  (eapply well_formed_frame; [..|exact Hwf]; first [reflexivity | done]).

Lemma after_well_formed (e : Event) (s : State) :
  well_formed (this s) → well_formed (this (after e s)).
Proof.
  intros Hwf. destruct e as [t|t|t v|t|t| | | | | |t b|w|st]; cbn [after].
  - destruct (decide (MediaStreamTrack.kind t = "audio")) as [Hk|Hk].
    + destruct (JsMap.get (caches (this s)) (MediaStreamTrack.id t)) as [c|] eqn:Hget.
      * by rewrite (addTrack_duplicate _ _ _ Hk Hget).
      * rewrite (addTrack_fresh _ _ Hk Hget). simpl. by apply well_formed_after_add.
    + by rewrite (addTrack_not_audio _ _ Hk).
  - destruct (decide (MediaStreamTrack.kind t = "audio")) as [Hk|Hk].
    + destruct (JsMap.get (caches (this s)) (MediaStreamTrack.id t)) as [c|] eqn:Hget.
      * destruct (well_formed_edges _ _ Hwf (registered_values _ _ _ Hget)) as (H1 & H2 & H3).
        rewrite (removeTrack_present _ _ _ Hk Hget H1 H2 H3). simpl.
        by apply well_formed_after_remove.
      * by rewrite (removeTrack_absent _ _ Hk Hget).
    + by rewrite (removeTrack_not_audio _ _ Hk).
  - unfold setTrackVolume. frame_cases Hwf.
  - unfold muteTrack. frame_cases Hwf.
  - unfold unmuteTrack. frame_cases Hwf.
  - exact Hwf.
  - exact Hwf.
  - unfold getMixedTrackVolume. frame_cases Hwf.
  - exact Hwf.
  - rewrite (destroy_run _ Hwf). apply well_formed_closed. simpl.
    by apply well_formed_unwired.
  - exact Hwf.
  - simpl. eapply well_formed_frame; [..|exact Hwf]; reflexivity.
  - simpl. unfold statechange, resume. simpl.
    destruct (onstatechange (audioContext (this s))), st;
      (eapply well_formed_frame; [..|exact Hwf]; reflexivity).
Qed.

Lemma reachable_well_formed (s : State) : reachable s → well_formed (this s).
Proof.
  induction 1 as [w m c flags Hnew|e s _ IH].
  - simpl. by eapply constructor_well_formed.
  - by apply after_well_formed.
Qed.

(** C2: in every state a mixer can reach, the registry has one entry per
    identifier at most, and a source node feeds a gain node that feeds the
    destination exactly when the two are the nodes of a registration; every
    method call (and every move of the world around the mixer) leads to a
    state where this holds again. *)
Theorem registry_invariant_reachable (s : State) :
  reachable s →
  registry_invariant (this s) ∧ ∀ e : Event, registry_invariant (this (after e s)).
Proof.
  intros Hs. split.
  - by apply well_formed_invariant, reachable_well_formed.
  - intros e. by apply well_formed_invariant, after_well_formed, reachable_well_formed.
Qed.

(** ** The example host *)

Lemma fresh_mixer_constructed :
  constructor chrome_window = Normal fresh_mixer (Some (audioContext fresh_mixer)).
Proof. reflexivity. Qed.

Lemma fresh_state_reachable : reachable fresh_state.
Proof. exact (reachable_new chrome_window fresh_mixer _ ∅ fresh_mixer_constructed). Defined.

Lemma state_a_reachable : reachable state_a.
Proof. exact (reachable_after (call_addTrack track_a) _ fresh_state_reachable). Defined.

Lemma state_ab_reachable : reachable state_ab.
Proof. exact (reachable_after (call_addTrack track_b) _ state_a_reachable). Defined.

Lemma addTrack_contract_witness :
  (MediaStreamTrack.kind video_track ≠ "audio"
   ∧ addTrack video_track fresh_state = Abrupt not_an_audio_track fresh_state)
  ∧ (MediaStreamTrack.kind track_a_twin = "audio"
     ∧ (∃ c, registered (this state_a) (MediaStreamTrack.id track_a_twin) c)
     ∧ addTrack track_a_twin state_a
       = Abrupt (already_added (MediaStreamTrack.id track_a_twin)) state_a)
  ∧ (MediaStreamTrack.kind track_b = "audio"
     ∧ JsMap.get (caches (this state_a)) (MediaStreamTrack.id track_b) = None
     ∧ ∃ s' c, addTrack track_b state_a = Normal (this s') s'
               ∧ registered (this s') (MediaStreamTrack.id track_b) c
               ∧ track c = track_b).
Proof.
  split; [|split].
  - assert (MediaStreamTrack.kind video_track ≠ "audio") as H by discriminate.
    split; [exact H|]. exact (proj1 (addTrack_contract fresh_state video_track) H).
  - assert (∃ c, registered (this state_a) (MediaStreamTrack.id track_a_twin) c) as H
      by (eexists; reflexivity).
    split; [reflexivity|]. split; [exact H|].
    exact (proj1 (proj2 (addTrack_contract state_a track_a_twin)) eq_refl H).
  - split; [reflexivity|]. split; [reflexivity|].
    destruct (proj2 (proj2 (addTrack_contract state_a track_b)) eq_refl eq_refl)
      as (s' & c & H1 & H2 & H3 & _).
    exists s', c. auto.
Defined.

Lemma registry_invariant_reachable_witness :
  reachable state_ab
  ∧ registry_invariant (this state_ab)
  ∧ ∀ e : Event, registry_invariant (this (after e state_ab)).
Proof.
  split; [exact state_ab_reachable|].
  exact (registry_invariant_reachable state_ab state_ab_reachable).
Defined.

(** ** The constructor *)

(** C3, as stated, fails: in a host whose context class cannot create a
    stream destination, the constructor throws the capability error after it
    has created a context, and that context is retained as created: it is
    not closed. *)
Lemma constructor_leaves_context_open :
  constructor old_edge_window
  = Abrupt capability_error (Some (new_AudioContext old_edge_class))
  ∧ state (new_AudioContext old_edge_class) ≠ closed
  ∧ constructor old_edge_window ≠ Abrupt capability_error None.
Proof. split; [reflexivity|]. split; discriminate. Qed.

(** C3, amended: when the host has no audio-context class the constructor
    throws the capability error and nothing has been allocated; when the
    class is there but its contexts cannot create a stream destination, the
    constructor throws the same error, no mixer results, and the context it
    created for the probe is retained exactly as [new] made it (no node, no
    connection): the constructor does not close it, so it is still open and
    a [close()] on it would be the first. *)
Theorem constructor_capability_error (w : Window) :
  (AudioContextClass_of w = None →
     constructor w = Abrupt capability_error None)
  ∧ (∀ cls, AudioContextClass_of w = Some cls →
       createMediaStreamDestination_property cls ≠ Callable →
       constructor w = Abrupt capability_error (Some (new_AudioContext cls))
       ∧ state (new_AudioContext cls) ≠ closed
       ∧ (∃ c', close (new_AudioContext cls) = Normal Pending c' ∧ state c' = closed)
       ∧ node_count (new_AudioContext cls) = 0
       ∧ connections (new_AudioContext cls) = ∅).
Proof.
  split.
  - intros Hnone. unfold constructor. by rewrite Hnone.
  - intros cls Hcls Hprop. unfold constructor. rewrite Hcls.
    split; [by destruct (createMediaStreamDestination_property cls) as [|[]|]|].
    unfold close, new_AudioContext. simpl.
    split; [by destruct (starts_running cls)|].
    split; [|done]. destruct (starts_running cls); by eexists.
Qed.

Lemma constructor_capability_error_witness :
  (AudioContextClass_of bare_window = None
   ∧ constructor bare_window = Abrupt capability_error None)
  ∧ (AudioContextClass_of old_edge_window = Some old_edge_class
     ∧ createMediaStreamDestination_property old_edge_class ≠ Callable
     ∧ constructor old_edge_window
       = Abrupt capability_error (Some (new_AudioContext old_edge_class))).
Proof.
  split.
  - split; [reflexivity|].
    exact (proj1 (constructor_capability_error bare_window) eq_refl).
  - assert (createMediaStreamDestination_property old_edge_class ≠ Callable) as H
      by discriminate.
    split; [reflexivity|]. split; [exact H|].
    exact (proj1 (proj2 (constructor_capability_error old_edge_window)
                    old_edge_class eq_refl H)).
Defined.

(** ** [setTrackVolume] *)

Lemma setTrackVolume_not_audio (t : MediaStreamTrack.t) (v : float) (s : State) :
  MediaStreamTrack.kind t ≠ "audio" → setTrackVolume t v s = Abrupt not_an_audio_track s.
Proof.
  intros Hkind. unfold setTrackVolume.
  unfold mbind at 1, Method_bind at 1, bind at 1.
  by rewrite (check_kind_other _ _ Hkind).
Qed.

Lemma setTrackVolume_absent (t : MediaStreamTrack.t) (v : float) (s : State) :
  MediaStreamTrack.kind t = "audio" →
  JsMap.get (caches (this s)) (MediaStreamTrack.id t) = None →
  setTrackVolume t v s = Normal tt s.
Proof.
  intros Hkind Hget. unfold setTrackVolume.
  unfold mbind at 1, Method_bind at 1, bind at 1.
  rewrite (check_kind_audio _ _ Hkind).
  unfold_method. by rewrite Hget.
Qed.

Lemma setTrackVolume_present (t : MediaStreamTrack.t) (v stored : float) (s : State)
    (c : TrackCache) :
  MediaStreamTrack.kind t = "audio" →
  JsMap.get (caches (this s)) (MediaStreamTrack.id t) = Some c →
  to_float32 (v / 100)%float = Some stored →
  setTrackVolume t v s
  = Normal tt {| this := mixer_with_gain (this s) (gainNode c) stored;
                 enabled := enabled s |}.
Proof.
  intros Hkind Hget Hv. unfold setTrackVolume.
  unfold mbind at 1, Method_bind at 1, bind at 1.
  rewrite (check_kind_audio _ _ Hkind).
  unfold_method. rewrite Hget. simpl. by rewrite Hv.
Qed.

Lemma setTrackVolume_refused (t : MediaStreamTrack.t) (v : float) (s : State) (c : TrackCache) :
  MediaStreamTrack.kind t = "audio" →
  JsMap.get (caches (this s)) (MediaStreamTrack.id t) = Some c →
  to_float32 (v / 100)%float = None →
  setTrackVolume t v s = Abrupt TypeError s.
Proof.
  intros Hkind Hget Hv. unfold setTrackVolume.
  unfold mbind at 1, Method_bind at 1, bind at 1.
  rewrite (check_kind_audio _ _ Hkind).
  unfold_method. rewrite Hget. simpl. rewrite Hv.
  by rewrite with_audioContext_id, state_eta.
Qed.

(** Reading a check made over [upto n]. *)
Lemma upto_elem (n : nat) (z : Z) : (0 ≤ z ≤ Z.of_nat n)%Z → z ∈ upto n.
Proof.
  intros H. unfold upto. apply list_elem_of_fmap. exists (Z.to_nat z).
  split; [lia|]. apply list_elem_of_In, in_seq. lia.
Qed.

Lemma table_lookup (P : Z → bool) (n : nat) (z : Z) :
  forallb P (upto n) = true → (0 ≤ z ≤ Z.of_nat n)%Z → P z = true.
Proof.
  intros Htable Hz. rewrite forallb_forall in Htable.
  apply Htable, list_elem_of_In. by apply upto_elem.
Qed.


(** The conversion at work: exact where the number is single precision,
    nearest-even otherwise, denormals below 2^-126, and refusal from
    2^128 - 2^103 on. *)
Example to_float32_samples :
  to_float32 0.5%float = Some 0.5%float
  ∧ to_float32 0.1%float = Some 0.10000000149011612%float
  ∧ to_float32 16777217%float = Some 16777216%float
  ∧ to_float32 16777219%float = Some 16777220%float
  ∧ to_float32 7e-46%float = Some 0%float
  ∧ to_float32 7.1e-46%float = Some 1.4012984643248171e-45%float
  ∧ to_float32 (-0)%float = Some (-0)%float
  ∧ to_float32 3.4028234663852886e38%float = Some 3.4028234663852886e38%float
  ∧ to_float32 3.4028235677973362e38%float = Some 3.4028234663852886e38%float
  ∧ to_float32 3.4028235677973366e38%float = None
  ∧ to_float32 PrimFloat.nan = None
  ∧ to_float32 PrimFloat.infinity = None.
Proof. repeat split; vm_compute; reflexivity. Qed.

Lemma floats_differ (x y : float) : Leibniz.eqb x y = false → Some x ≠ Some y.
Proof.
  intros Hne Heq.
  assert (x = y) as Hxy by (change (default x (Some x) = default x (Some y)); by rewrite Heq).
  apply Leibniz.eqb_spec in Hxy. congruence.
Qed.




(** C10, as stated, fails: not every number passes through.  With [NaN]
    for a volume the assignment to the gain throws [TypeError] and the gain
    of the registered track stays at 1; and a quotient that is no
    single-precision number is stored rounded. *)
Lemma setTrackVolume_refuses_nan :
  registered (this state_a) (MediaStreamTrack.id track_a)
    (cache_for track_a (audioContext fresh_mixer))
  ∧ setTrackVolume track_a PrimFloat.nan state_a = Abrupt TypeError state_a
  ∧ gain_value (audioContext (this (final_state (setTrackVolume track_a PrimFloat.nan state_a))))
      !! 4 = Some 1%float
  ∧ gain_value (audioContext (this (final_state (setTrackVolume track_a PrimFloat.nan state_a))))
      !! 4 ≠ Some (PrimFloat.nan / 100)%float.
Proof.
  assert (setTrackVolume track_a PrimFloat.nan state_a = Abrupt TypeError state_a) as H
    by (vm_compute; reflexivity).
  split; [reflexivity|]. split; [exact H|]. rewrite H.
  assert (gain_value (audioContext (this (final_state (Abrupt (A:=unit) TypeError state_a))))
            !! 4 = Some 1%float) as Hg by (vm_compute; reflexivity).
  split; [exact Hg|]. rewrite Hg. apply floats_differ. vm_compute. reflexivity.
Qed.

(** C10, amended: [setTrackVolume] does not clamp.  For a registered track
    and any volume, inside [0, 100] or not, whose quotient [volume / 100]
    has a single-precision rounding, the gain becomes that rounding: volume
    200 gives gain 2 and volume -50 gives gain -0.5.  Where the quotient has
    none ([NaN], an infinity, a magnitude beyond single precision, as for
    volume 1e41) the assignment throws [TypeError] and nothing changes. *)
Theorem setTrackVolume_unclamped (s : State) (t : MediaStreamTrack.t) (c : TrackCache) :
  MediaStreamTrack.kind t = "audio" →
  registered (this s) (MediaStreamTrack.id t) c →
  (∀ volume stored, to_float32 (volume / 100)%float = Some stored →
     thrown (setTrackVolume t volume s) = None
     ∧ gain_value (audioContext (this (final_state (setTrackVolume t volume s)))) !! gainNode c
       = Some stored)
  ∧ (∀ volume, to_float32 (volume / 100)%float = None →
       setTrackVolume t volume s = Abrupt TypeError s)
  ∧ gain_value (audioContext (this (final_state (setTrackVolume t 200 s)))) !! gainNode c
    = Some 2%float
  ∧ gain_value (audioContext (this (final_state (setTrackVolume t (-50) s)))) !! gainNode c
    = Some (-0.5)%float
  ∧ to_float32 (PrimFloat.nan / 100)%float = None
  ∧ to_float32 (PrimFloat.infinity / 100)%float = None
  ∧ to_float32 (PrimFloat.neg_infinity / 100)%float = None
  ∧ to_float32 (1e41 / 100)%float = None.
Proof.
  intros Hkind Hc.
  assert (∀ volume stored, to_float32 (volume / 100)%float = Some stored →
    thrown (setTrackVolume t volume s) = None
    ∧ gain_value (audioContext (this (final_state (setTrackVolume t volume s)))) !! gainNode c
      = Some stored) as H.
  { intros v stored Hv. rewrite (setTrackVolume_present _ _ _ _ _ Hkind Hc Hv). simpl.
    split; [done|]. apply lookup_insert_eq. }
  split; [exact H|]. split; [intros v Hv; by eapply setTrackVolume_refused|].
  split; [apply (H 200%float); vm_compute; reflexivity|].
  split; [apply (H (-50)%float); vm_compute; reflexivity|].
  repeat split; vm_compute; reflexivity.
Qed.

Lemma setTrackVolume_unclamped_witness :
  MediaStreamTrack.kind track_a = "audio"
  ∧ registered (this state_a) (MediaStreamTrack.id track_a)
      (cache_for track_a (audioContext fresh_mixer))
  ∧ gain_value (audioContext (this (final_state (setTrackVolume track_a 200 state_a)))) !! 4
    = Some 2%float
  ∧ gain_value (audioContext (this (final_state (setTrackVolume track_a (-50) state_a)))) !! 4
    = Some (-0.5)%float
  ∧ (to_float32 (1e41 / 100)%float = None
     ∧ setTrackVolume track_a 1e41 state_a = Abrupt TypeError state_a).
Proof.
  destruct (setTrackVolume_unclamped state_a track_a
              (cache_for track_a (audioContext fresh_mixer)) eq_refl eq_refl)
    as (_ & H2 & H3 & H4 & _ & _ & _ & H8).
  split; [reflexivity|]. split; [reflexivity|]. split; [exact H3|]. split; [exact H4|].
  split; [exact H8|exact (H2 1e41%float H8)].
Defined.

(** ** [muteTrack] and [unmuteTrack] *)

Lemma muteTrack_present (t : MediaStreamTrack.t) (s : State) (c : TrackCache) :
  MediaStreamTrack.kind t = "audio" →
  JsMap.get (caches (this s)) (MediaStreamTrack.id t) = Some c →
  muteTrack t s = Normal true (state_with_flag s (track c) false).
Proof.
  intros Hkind Hget. unfold muteTrack.
  unfold mbind at 1, Method_bind at 1, bind at 1.
  rewrite (check_kind_audio _ _ Hkind).
  unfold_method. by rewrite Hget.
Qed.

Lemma unmuteTrack_present (t : MediaStreamTrack.t) (s : State) (c : TrackCache) :
  MediaStreamTrack.kind t = "audio" →
  JsMap.get (caches (this s)) (MediaStreamTrack.id t) = Some c →
  unmuteTrack t s = Normal true (state_with_flag s (track c) true).
Proof.
  intros Hkind Hget. unfold unmuteTrack.
  unfold mbind at 1, Method_bind at 1, bind at 1.
  rewrite (check_kind_audio _ _ Hkind).
  unfold_method. by rewrite Hget.
Qed.

Lemma muteTrack_absent (t : MediaStreamTrack.t) (s : State) :
  MediaStreamTrack.kind t = "audio" →
  JsMap.get (caches (this s)) (MediaStreamTrack.id t) = None →
  muteTrack t s = Normal false s ∧ unmuteTrack t s = Normal false s.
Proof.
  intros Hkind Hget. split.
  - unfold muteTrack. unfold mbind at 1, Method_bind at 1, bind at 1.
    rewrite (check_kind_audio _ _ Hkind). unfold_method. by rewrite Hget.
  - unfold unmuteTrack. unfold mbind at 1, Method_bind at 1, bind at 1.
    rewrite (check_kind_audio _ _ Hkind). unfold_method. by rewrite Hget.
Qed.

Lemma track_enabled_flag (s : State) (t t' : MediaStreamTrack.t) (b : bool) :
  track_enabled (state_with_flag s t b) t'
  = if decide (MediaStreamTrack.obj t = MediaStreamTrack.obj t') then b else track_enabled s t'.
Proof.
  unfold track_enabled, state_with_flag. simpl. rewrite lookup_insert.
  by destruct (decide _).
Qed.

(** C5: on an audio track whose identifier is registered, [muteTrack]
    returns true with the registered track's [enabled] flag false, and
    [unmuteTrack] returns true with that flag true; on an audio track whose
    identifier is not registered both return false and change nothing.
    Neither touches the mixer: gains, registry and connections are as
    before, and so are the flags of all other track objects. *)
Theorem mute_unmute_contract (s : State) (t : MediaStreamTrack.t) :
  MediaStreamTrack.kind t = "audio" →
  (∀ c, registered (this s) (MediaStreamTrack.id t) c →
     ∃ s1 s2,
       muteTrack t s = Normal true s1
       ∧ track_enabled s1 (track c) = false
       ∧ unmuteTrack t s = Normal true s2
       ∧ track_enabled s2 (track c) = true
       ∧ this s1 = this s ∧ this s2 = this s
       ∧ ∀ t', MediaStreamTrack.obj t' ≠ MediaStreamTrack.obj (track c) →
               track_enabled s1 t' = track_enabled s t'
               ∧ track_enabled s2 t' = track_enabled s t')
  ∧ (JsMap.get (caches (this s)) (MediaStreamTrack.id t) = None →
     muteTrack t s = Normal false s ∧ unmuteTrack t s = Normal false s).
Proof.
  intros Hkind. split; [|by apply muteTrack_absent].
  intros c Hc.
  exists (state_with_flag s (track c) false), (state_with_flag s (track c) true).
  split; [by apply muteTrack_present|].
  split; [rewrite track_enabled_flag; by rewrite decide_True|].
  split; [by apply unmuteTrack_present|].
  split; [rewrite track_enabled_flag; by rewrite decide_True|].
  split; [done|]. split; [done|].
  intros t' Hne. rewrite !track_enabled_flag. by rewrite !decide_False.
Qed.

Lemma mute_unmute_contract_witness :
  MediaStreamTrack.kind track_a_twin = "audio"
  ∧ (registered (this state_a) (MediaStreamTrack.id track_a_twin)
       (cache_for track_a (audioContext fresh_mixer))
     ∧ ∃ s1, muteTrack track_a_twin state_a = Normal true s1
             ∧ track_enabled s1 track_a = false
             ∧ this s1 = this state_a)
  ∧ (JsMap.get (caches (this fresh_state)) (MediaStreamTrack.id track_a_twin) = None
     ∧ muteTrack track_a_twin fresh_state = Normal false fresh_state).
Proof.
  split; [reflexivity|]. split.
  - split; [reflexivity|].
    destruct (proj1 (mute_unmute_contract state_a track_a_twin eq_refl)
                (cache_for track_a (audioContext fresh_mixer)) eq_refl)
      as (s1 & s2 & H1 & H2 & _ & _ & H3 & _).
    exists s1. auto.
  - split; [reflexivity|].
    exact (proj1 (proj2 (mute_unmute_contract fresh_state track_a_twin eq_refl) eq_refl)).
Defined.

(** ** [removeTrack] *)

(** Calling [removeTrack] again from the state the first call ends in gives
    what the first call gave. *)
Lemma removeTrack_twice (t : MediaStreamTrack.t) (s : State) :
  removeTrack t (final_state (removeTrack t s)) = removeTrack t s.
Proof.
  destruct (decide (MediaStreamTrack.kind t = "audio")) as [Hk|Hk];
    [|by rewrite !(removeTrack_not_audio _ _ Hk)].
  destruct (JsMap.get (caches (this s)) (MediaStreamTrack.id t)) as [c|] eqn:Hget;
    [|rewrite (removeTrack_absent _ _ Hk Hget); simpl;
      by rewrite (removeTrack_absent _ _ Hk Hget)].
  pose (d := destination (this s)).
  destruct (decide ((gainNode c, d) ∈ connections (audioContext (this s)))) as [H1|H1].
  - destruct (decide ((sourceNode c, gainNode c)
                      ∈ connections (audioContext (this s)) ∖ {[ (gainNode c, d) ]})) as [H2|H2].
    + assert (removeTrack t s
              = Normal (mixer_after_remove (this s) (MediaStreamTrack.id t) c)
                  {| this := mixer_after_remove (this s) (MediaStreamTrack.id t) c;
                     enabled := enabled s |}) as Hrun.
      { unfold removeTrack.
        unfold mbind at 1, Method_bind at 1, bind at 1.
        rewrite (check_kind_audio _ _ Hk).
        unfold_method. rewrite Hget. simpl. unfold disconnect.
        fold d. rewrite decide_True by done. simpl. fold d.
        rewrite decide_True by done. reflexivity. }
      rewrite Hrun. simpl. rewrite removeTrack_absent; [done|done|].
      simpl. apply get_delete_eq.
    + assert (removeTrack t s
              = Abrupt (DOMException "InvalidAccessError")
                  {| this := with_audioContext (this s)
                               (with_connections (audioContext (this s))
                                  (connections (audioContext (this s)) ∖ {[ (gainNode c, d) ]}));
                     enabled := enabled s |}) as Hrun.
      { unfold removeTrack.
        unfold mbind at 1, Method_bind at 1, bind at 1.
        rewrite (check_kind_audio _ _ Hk).
        unfold_method. rewrite Hget. simpl. unfold disconnect.
        fold d. rewrite decide_True by done. simpl. fold d.
        rewrite decide_False by done. reflexivity. }
      rewrite Hrun. simpl.
      unfold removeTrack.
      unfold mbind at 1, Method_bind at 1, bind at 1.
      rewrite (check_kind_audio _ _ Hk).
      unfold_method. rewrite Hget. simpl. unfold disconnect. simpl. fold d.
      rewrite decide_False; [reflexivity|].
      rewrite elem_of_difference, elem_of_singleton. tauto.
  - assert (removeTrack t s = Abrupt (DOMException "InvalidAccessError")
              {| this := with_audioContext (this s) (audioContext (this s));
                 enabled := enabled s |}) as Hrun.
    { unfold removeTrack.
      unfold mbind at 1, Method_bind at 1, bind at 1.
      rewrite (check_kind_audio _ _ Hk).
      unfold_method. rewrite Hget. simpl. unfold disconnect.
      fold d. rewrite decide_False by done. reflexivity. }
    rewrite Hrun. simpl. rewrite with_audioContext_id, state_eta.
    rewrite Hrun. by rewrite with_audioContext_id, state_eta.
Qed.

(** C6: on an audio track whose identifier is not registered, [removeTrack]
    does not throw, returns the mixer and leaves the state as it is; a
    second [removeTrack] of the same track gives what the first gave; and
    when the identifier is registered (in a state the mixer can reach) the
    call returns the mixer with the registration's gain node disconnected
    from the destination, its source node disconnected from its gain node,
    and the entry deleted, the other entries being untouched. *)
Theorem removeTrack_contract (s : State) (t : MediaStreamTrack.t) :
  MediaStreamTrack.kind t = "audio" →
  (JsMap.get (caches (this s)) (MediaStreamTrack.id t) = None →
     removeTrack t s = Normal (this s) s)
  ∧ removeTrack t (final_state (removeTrack t s)) = removeTrack t s
  ∧ (reachable s →
     ∀ c, registered (this s) (MediaStreamTrack.id t) c →
     ∃ s', removeTrack t s = Normal (this s') s'
           ∧ connections (audioContext (this s'))
             = connections (audioContext (this s))
                 ∖ {[ (gainNode c, destination (this s)) ]}
                 ∖ {[ (sourceNode c, gainNode c) ]}
           ∧ ((gainNode c, destination (this s)) ∉ connections (audioContext (this s')))
           ∧ ((sourceNode c, gainNode c) ∉ connections (audioContext (this s')))
           ∧ JsMap.get (caches (this s')) (MediaStreamTrack.id t) = None
           ∧ (∀ id', id' ≠ MediaStreamTrack.id t →
                JsMap.get (caches (this s')) id' = JsMap.get (caches (this s)) id')
           ∧ enabled s' = enabled s).
Proof.
  intros Hkind. split; [by apply removeTrack_absent|]. split; [apply removeTrack_twice|].
  intros Hs c Hc.
  pose proof (reachable_well_formed _ Hs) as Hwf.
  destruct (well_formed_edges _ _ Hwf (registered_values _ _ _ Hc)) as (H1 & H2 & H3).
  exists {| this := mixer_after_remove (this s) (MediaStreamTrack.id t) c;
            enabled := enabled s |}.
  split; [by apply removeTrack_present|]. simpl.
  split; [done|].
  split; [rewrite !elem_of_difference, !elem_of_singleton; tauto|].
  split; [rewrite !elem_of_difference, !elem_of_singleton; tauto|].
  split; [apply get_delete_eq|]. split; [|done].
  intros id' Hne. apply get_delete_ne. congruence.
Qed.

Lemma removeTrack_contract_witness :
  MediaStreamTrack.kind track_a = "audio"
  ∧ (JsMap.get (caches (this fresh_state)) (MediaStreamTrack.id track_a) = None
     ∧ removeTrack track_a fresh_state = Normal (this fresh_state) fresh_state)
  ∧ (reachable state_ab
     ∧ registered (this state_ab) (MediaStreamTrack.id track_a)
         (cache_for track_a (audioContext fresh_mixer))
     ∧ ∃ s', removeTrack track_a state_ab = Normal (this s') s'
             ∧ JsMap.get (caches (this s')) (MediaStreamTrack.id track_a) = None).
Proof.
  split; [reflexivity|]. split.
  - split; [reflexivity|].
    exact (proj1 (removeTrack_contract fresh_state track_a eq_refl) eq_refl).
  - split; [exact state_ab_reachable|]. split; [reflexivity|].
    destruct (proj2 (proj2 (removeTrack_contract state_ab track_a eq_refl))
                state_ab_reachable (cache_for track_a (audioContext fresh_mixer)) eq_refl)
      as (s' & H1 & _ & _ & _ & H2 & _).
    exists s'. auto.
Defined.

(** ** [destroy] *)

(** X23: in every state a mixer can reach, [destroy] returns (it does not
    throw); afterwards the registry is empty, for every registration there
    was the gain node is disconnected from the destination and the source
    node from the gain node, and no source/gain pair feeds the destination
    any more; what it returns is the promise [audioContext.close()] gave, on
    the unwired context: pending, with the context closed, unless the
    context was closed already. *)
Theorem destroy_unwires (s : State) :
  reachable s →
  ∃ p s',
    destroy s = Normal p s'
    ∧ caches (this s') = []
    ∧ connections (audioContext (this s'))
      = connections (audioContext (this s))
          ∖ edges_of (destination (this s)) (JsMap.values (caches (this s)))
    ∧ (∀ id c, registered (this s) id c →
         ((gainNode c, destination (this s)) ∉ connections (audioContext (this s')))
         ∧ ((sourceNode c, gainNode c) ∉ connections (audioContext (this s'))))
    ∧ (∀ source gain, ¬ wired (this s') source gain)
    ∧ close (audioContext (mixer_unwired (this s))) = Normal p (audioContext (this s'))
    ∧ (state (audioContext (this s)) ≠ closed →
         p = Pending ∧ state (audioContext (this s')) = closed).
Proof.
  intros Hs. pose proof (reachable_well_formed _ Hs) as Hwf.
  pose proof (after_well_formed call_destroy s Hwf) as Hwf'.
  apply well_formed_invariant in Hwf' as [_ Hinv]. cbn [after] in Hinv.
  rewrite (destroy_run _ Hwf) in Hinv |- *.
  unfold on_context in *. simpl in *.
  assert (∃ p c', close (with_connections (audioContext (this s))
                           (connections (audioContext (this s))
                              ∖ edges_of (destination (this s)) (JsMap.values (caches (this s)))))
                  = Normal p c'
                  ∧ connections c' = connections (audioContext (this s))
                       ∖ edges_of (destination (this s)) (JsMap.values (caches (this s)))
                  ∧ (state (audioContext (this s)) ≠ closed → p = Pending ∧ state c' = closed))
    as (p & c' & Hclose & Hconn & Hstate).
  { unfold close. simpl. destruct (state (audioContext (this s)));
      (eexists _, _; split; [reflexivity|]; split; [reflexivity|]; intros ?; done). }
  rewrite Hclose in Hinv |- *. simpl in *.
  exists p. eexists. split; [reflexivity|]. simpl.
  split; [done|]. split; [done|]. split; [|split; [|split; done]].
  - intros id c Hc. rewrite Hconn.
    assert (c ∈ JsMap.values (caches (this s))) as Hin by by eapply registered_values.
    rewrite !elem_of_difference, !elem_of_edges_of.
    split; intros [_ Hn]; apply Hn; exists c; tauto.
  - intros a b Hw. apply Hinv in Hw as (id & c & Hreg & _). unfold registered in Hreg.
    simpl in Hreg. done.
Qed.

Lemma destroy_unwires_witness :
  reachable state_ab
  ∧ ∃ p s', destroy state_ab = Normal p s'
            ∧ caches (this s') = []
            ∧ p = Pending
            ∧ state (audioContext (this s')) = closed.
Proof.
  split; [exact state_ab_reachable|].
  destruct (destroy_unwires state_ab state_ab_reachable)
    as (p & s' & H1 & H2 & _ & _ & _ & _ & H3).
  exists p, s'. split; [exact H1|]. split; [exact H2|].
  apply H3. discriminate.
Defined.

(** ** [getMixedTrackVolume] *)

Lemma max_table_checked : max_table = true.
Proof. vm_compute. reflexivity. Qed.

Lemma floor_table_checked : floor_table = true.
Proof. vm_compute. reflexivity. Qed.

Lemma range_table_checked : range_table = true.
Proof. vm_compute. reflexivity. Qed.

Lemma deviation_range (b : byte) : (0 ≤ deviation b ≤ 128)%Z.
Proof. unfold deviation. pose proof (Byte.to_N_bounded b). lia. Qed.

Lemma Math_abs_deviation (b : byte) :
  Math_abs (number_of_byte b - BASE)%float = float_of_Z (deviation b).
Proof. destruct b; reflexivity. Qed.

Lemma Math_max_exact (m d : Z) :
  (0 ≤ m ≤ 128)%Z → (0 ≤ d ≤ 128)%Z →
  Math_max (float_of_Z m) (float_of_Z d) = float_of_Z (Z.max m d).
Proof.
  intros Hm Hd. apply Leibniz.eqb_spec.
  pose proof (table_lookup _ 128 m max_table_checked Hm) as Hrow. cbv beta in Hrow.
  exact (table_lookup _ 128 d Hrow Hd).
Qed.

Lemma Math_floor_exact (m : Z) :
  (0 ≤ m ≤ 128)%Z →
  Math_floor ((float_of_Z m / BASE) * 100)%float = float_of_Z (m * 100 / 128).
Proof.
  intros Hm. apply Leibniz.eqb_spec.
  exact (table_lookup _ 128 m floor_table_checked Hm).
Qed.

(** The loop of the meter computes, in binary64, the integer peak. *)
Lemma meter_loop (data : list byte) : ∀ m : Z,
  (0 ≤ m ≤ 128)%Z →
  fold_left (fun max item => Math_max max (Math_abs (number_of_byte item - BASE)%float))
            data (float_of_Z m)
  = float_of_Z (fold_left (fun m b => Z.max m (deviation b)) data m)
  ∧ (0 ≤ fold_left (fun m b => Z.max m (deviation b)) data m ≤ 128)%Z.
Proof.
  induction data as [|b data IH]; intros m Hm; simpl; [done|].
  pose proof (deviation_range b) as Hb.
  rewrite Math_abs_deviation, Math_max_exact by done.
  apply IH. lia.
Qed.

Lemma peak_range (data : list byte) : (0 ≤ peak data ≤ 128)%Z.
Proof. unfold peak. apply (meter_loop data 0). lia. Qed.

(** C7: with an analyser, [getMixedTrackVolume] reads the current samples
    into the buffer and returns the floor of (peak / 128 * 100), where peak
    is the largest |sample - 128| over the buffer: the returned number is the
    integer L with 128 L ≤ 100 peak < 128 (L + 1), and it lies in [0, 100];
    without an analyser it returns 0. *)
Theorem getMixedTrackVolume_contract (s : State) :
  (∀ an, analyser (this s) = Some an →
     let data := getByteTimeDomainData (audioContext (this s)) (timeDomainData (this s)) in
     let L := (peak data * 100 / 128)%Z in
     getMixedTrackVolume s
     = Normal (float_of_Z L)
         {| this := with_timeDomainData (this s) data; enabled := enabled s |}
     ∧ (128 * L ≤ 100 * peak data < 128 * (L + 1))%Z
     ∧ (0 ≤ L ≤ 100)%Z
     ∧ (0 <=? float_of_Z L)%float = true
     ∧ (float_of_Z L <=? 100)%float = true)
  ∧ (analyser (this s) = None → getMixedTrackVolume s = Normal 0%float s).
Proof.
  split.
  - intros an Han data L.
    pose proof (peak_range data) as Hpeak.
    assert (128 * L ≤ 100 * peak data < 128 * (L + 1))%Z as Hfloor.
    { unfold L. pose proof (Z.div_mod (peak data * 100) 128 ltac:(lia)).
      pose proof (Z.mod_pos_bound (peak data * 100) 128 ltac:(lia)). lia. }
    assert (0 ≤ L ≤ 100)%Z as HL by lia.
    split; [|split; [done|split; [done|]]].
    + unfold getMixedTrackVolume. unfold_method. rewrite Han. simpl.
      fold data. change 0%float with (float_of_Z 0).
      destruct (meter_loop data 0 ltac:(lia)) as [-> _].
      fold (peak data). by rewrite Math_floor_exact.
    + pose proof (table_lookup _ 100 L range_table_checked HL) as Hr. cbv beta in Hr.
      by apply andb_true_iff in Hr.
  - intros Han. unfold getMixedTrackVolume. unfold_method. rewrite Han. simpl.
    reflexivity.
Qed.

Lemma getMixedTrackVolume_contract_witness :
  (analyser (this fresh_state) = Some {| analyser_id := 2; frequencyBinCount := 4 |}
   ∧ getMixedTrackVolume fresh_state
     = Normal 78%float
         {| this := with_timeDomainData fresh_mixer ["128"; "200"; "028"; "128"]%byte;
            enabled := ∅ |})
  ∧ (analyser (this deaf_state) = None
     ∧ getMixedTrackVolume deaf_state = Normal 0%float deaf_state).
Proof.
  split.
  - split; [reflexivity|].
    exact (proj1 (proj1 (getMixedTrackVolume_contract fresh_state)
                    {| analyser_id := 2; frequencyBinCount := 4 |} eq_refl)).
  - split; [reflexivity|].
    exact (proj2 (getMixedTrackVolume_contract deaf_state) eq_refl).
Defined.

(** ** The static capture helpers *)

(** C9, as stated, fails for [getTracksFromAudioElement]: in a host without
    any capture capability (and that is neither Safari nor old Edge) it
    returns the empty list and prints nothing. *)
Lemma getTracksFromAudioElement_silent :
  Audio_prototype_captureStream ie_host = false
  ∧ Audio_prototype_mozCaptureStream ie_host = false
  ∧ isSafari (browser ie_host) || isOldEdge (browser ie_host) = false
  ∧ getTracksFromAudioElement ie_host song [] = (TrackArray [], [])
  ∧ getMediaStreamFromElement ie_host song []
    = (None, ["Internet Explorer - 11.0 is not support this API"]).
Proof. repeat split. Qed.

(** C9, amended.  [getMediaStreamFromElement] returns the captured stream
    when [Audio.prototype] has the standard or the vendor-prefixed capture
    method and prints nothing; otherwise it returns undefined and prints one
    warning that names the detected browser and its version ("unknown" where
    the parser found none).  [getTracksFromAudioElement] never prints: it
    returns the audio tracks of the captured stream when the standard method
    is there; when there is no capture method it returns the element's
    legacy [audioTracks] in Safari and old Edge, and the empty list
    elsewhere. *)
Theorem capture_helpers_contract (h : Host) (el : HTMLMediaElement) (c : Console) :
  (Audio_prototype_captureStream h = true →
     getMediaStreamFromElement h el c = (Some (captureStream el), c)
     ∧ getTracksFromAudioElement h el c
       = (TrackArray (List.filter is_audio (captureStream el)), c))
  ∧ (Audio_prototype_captureStream h = false →
     Audio_prototype_mozCaptureStream h = true →
     getMediaStreamFromElement h el c = (Some (mozCaptureStream el), c))
  ∧ (Audio_prototype_captureStream h = false →
     Audio_prototype_mozCaptureStream h = false →
     getMediaStreamFromElement h el c
     = (None,
        console_warn (string_or (getBrowser_name (browser h)) "unknown" ++ " - "
                      ++ string_or (getBrowser_version (browser h)) "unknown"
                      ++ " is not support this API") c)
     ∧ (isSafari (browser h) || isOldEdge (browser h) = true →
        getTracksFromAudioElement h el c = (LegacyAudioTracks (audioTracks el), c))
     ∧ (isSafari (browser h) || isOldEdge (browser h) = false →
        getTracksFromAudioElement h el c = (TrackArray [], c)))
  ∧ snd (getTracksFromAudioElement h el c) = c.
Proof.
  unfold getMediaStreamFromElement, getTracksFromAudioElement.
  split; [|split; [|split]].
  - by intros ->.
  - by intros -> ->.
  - intros -> ->. split; [reflexivity|]. split; by intros ->.
  - by repeat destruct (_ : bool).
Qed.

Lemma capture_helpers_contract_witness :
  (Audio_prototype_captureStream chrome_host = true
   ∧ getTracksFromAudioElement chrome_host song [] = (TrackArray [track_a; track_b], []))
  ∧ (Audio_prototype_captureStream firefox_host = false
     ∧ Audio_prototype_mozCaptureStream firefox_host = true
     ∧ getMediaStreamFromElement firefox_host song []
       = (Some [track_a; video_track; track_b], []))
  ∧ (Audio_prototype_captureStream safari_host = false
     ∧ Audio_prototype_mozCaptureStream safari_host = false
     ∧ isSafari (browser safari_host) || isOldEdge (browser safari_host) = true
     ∧ getMediaStreamFromElement safari_host song []
       = (None, ["Safari - 13.1 is not support this API"])
     ∧ getTracksFromAudioElement safari_host song [] = (LegacyAudioTracks (audioTracks song), []))
  ∧ (Audio_prototype_captureStream ie_host = false
     ∧ Audio_prototype_mozCaptureStream ie_host = false
     ∧ isSafari (browser ie_host) || isOldEdge (browser ie_host) = false
     ∧ getTracksFromAudioElement ie_host song [] = (TrackArray [], [])).
Proof.
  split; [|split; [|split]].
  - split; [reflexivity|].
    exact (proj2 (proj1 (capture_helpers_contract chrome_host song []) eq_refl)).
  - split; [reflexivity|]. split; [reflexivity|].
    exact (proj1 (proj2 (capture_helpers_contract firefox_host song [])) eq_refl eq_refl).
  - split; [reflexivity|]. split; [reflexivity|]. split; [reflexivity|].
    destruct (proj1 (proj2 (proj2 (capture_helpers_contract safari_host song [])))
                eq_refl eq_refl) as (H1 & H2 & _).
    split; [exact H1|exact (H2 eq_refl)].
  - split; [reflexivity|]. split; [reflexivity|]. split; [reflexivity|].
    destruct (proj1 (proj2 (proj2 (capture_helpers_contract ie_host song [])))
                eq_refl eq_refl) as (_ & _ & H3).
    exact (H3 eq_refl).
Defined.

(** ** The model at work *)

(** The scenario of the specification: add A, add B, remove A, set B to 50,
    mute B twice. *)
Example scenario_tracks :
  (mixer ← addTrack track_a; mixer ← addTrack track_b; getTracks) fresh_state
  = Normal [track_a; track_b] state_ab.
Proof. vm_compute. reflexivity. Qed.

Example scenario_remove :
  (mixer ← removeTrack track_a; getTracks) state_ab
  = Normal [track_b] (after (call_removeTrack track_a) state_ab).
Proof. vm_compute. reflexivity. Qed.

Example scenario_volume :
  gain_value
    (audioContext (this (final_state (setTrackVolume track_b 50 state_ab)))) !! 6
  = Some 0.5%float.
Proof. vm_compute. reflexivity. Qed.

Example scenario_mute_twice :
  (muted ← muteTrack track_b; muteTrack track_b) state_ab
  = Normal true (state_with_flag state_ab track_b false).
Proof. vm_compute. reflexivity. Qed.

Example scenario_mixed_track :
  getMixedTrack state_ab = Normal (Some (MediaStreamTrack.mk 0 "mixed" "audio")) state_ab.
Proof. vm_compute. reflexivity. Qed.

(** On the vendor-prefixed path [getTracksFromAudioElement] hands back the
    first audio track of the captured stream, not the list of them. *)
Example getTracksFromAudioElement_prefixed :
  getTracksFromAudioElement firefox_host song [] = (FirstTrack (Some track_a), []).
Proof. vm_compute. reflexivity. Qed.

(** After a failed [addTrack] the caller still sees the same tracks. *)
Example scenario_duplicate :
  addTrack track_a_twin state_ab = Abrupt (already_added "a") state_ab.
Proof. vm_compute. reflexivity. Qed.

(** * More of the code *)

(** ** The constructor, when it succeeds *)

Lemma constructor_builds_aux (w : Window) (cls : AudioContextClass) :
  AudioContextClass_of w = Some cls →
  createMediaStreamDestination_property cls = Callable →
  ∃ m, constructor w = Normal m (Some (audioContext m)).
Proof.
  intros Hcls Hprop. unfold constructor. rewrite Hcls, Hprop. simpl.
  eexists (Build_AudioTrackMixer _ _ _ _ _ _). reflexivity.
Qed.

(** X1: when the first audio-context class the host defines can create a
    stream destination, [new AudioTrackMixer()] returns a mixer with an
    empty registry, three nodes (destination, analyser source, analyser),
    the analyser source connected to the analyser and nothing else, a
    zero-filled sample buffer of [fftSize / 2] bytes, a context with the
    state-change handler installed and still in the state it was created in
    (the constructor neither suspends, resumes nor closes it), and a
    destination stream that carries one audio track. *)
Theorem constructor_builds (w : Window) (cls : AudioContextClass) :
  AudioContextClass_of w = Some cls →
  createMediaStreamDestination_property cls = Callable →
  ∃ m, constructor w = Normal m (Some (audioContext m))
       ∧ caches m = []
       ∧ node_count (audioContext m) = 3
       ∧ destination m = 0 ∧ analyserSourceNode m = 1
       ∧ analyser m = Some {| analyser_id := 2; frequencyBinCount := fftSize cls / 2 |}
       ∧ connections (audioContext m) = {[ (1, 2) ]}
       ∧ gain_value (audioContext m) = ∅
       ∧ timeDomainData m = repeat "000"%byte (fftSize cls / 2)
       ∧ state (audioContext m) = state (new_AudioContext cls)
       ∧ state (audioContext m) ≠ closed
       ∧ onstatechange (audioContext m) = true
       ∧ stream (destinationNode m)
         = [MediaStreamTrack.mk (mixed_track_obj cls) (mixed_track_id cls) "audio"].
Proof.
  intros Hcls Hprop. unfold constructor. rewrite Hcls, Hprop. simpl.
  eexists (Build_AudioTrackMixer _ _ _ _ _ _). split; [reflexivity|].
  simpl. unfold destination. simpl.
  split_and!; try done. by destruct (starts_running cls).
Qed.

Lemma constructor_builds_witness :
  AudioContextClass_of chrome_window = Some chrome_class
  ∧ createMediaStreamDestination_property chrome_class = Callable
  ∧ ∃ m, constructor chrome_window = Normal m (Some (audioContext m))
         ∧ caches m = []
         ∧ timeDomainData m = ["000"; "000"; "000"; "000"]%byte.
Proof.
  split; [reflexivity|]. split; [reflexivity|].
  destruct (constructor_builds chrome_window chrome_class eq_refl eq_refl)
    as (m & H1 & H2 & _ & _ & _ & _ & _ & _ & H3 & _).
  exists m. split; [exact H1|]. split; [exact H2|exact H3].
Defined.

Lemma AudioContextClass_of_standard (w : Window) (cls : AudioContextClass) :
  window_AudioContext w = Some cls → AudioContextClass_of w = Some cls.
Proof. unfold AudioContextClass_of. by intros ->. Qed.

(** X2: the constructor probes one class only, the first one the host
    defines in the order standard, webkit, moz, ms, o.  It returns a mixer if
    and only if that class can create a stream destination; otherwise the
    only thing it throws is the capability error.  In particular, when the
    standard class is defined but cannot create a stream destination, the
    constructor throws whatever the prefixed classes could do. *)
Theorem constructor_probes_first_class (w : Window) :
  ((∃ m c, constructor w = Normal m c)
   ↔ ∃ cls, AudioContextClass_of w = Some cls
            ∧ createMediaStreamDestination_property cls = Callable)
  ∧ (∀ e, thrown (constructor w) = Some e → e = capability_error)
  ∧ (∀ cls, window_AudioContext w = Some cls →
       createMediaStreamDestination_property cls ≠ Callable →
       thrown (constructor w) = Some capability_error)
  ∧ (window_AudioContext w = None → ∀ cls, window_webkitAudioContext w = Some cls →
       AudioContextClass_of w = Some cls).
Proof.
  split; [|split; [|split]].
  - split.
    + intros (m & c & Hrun). unfold constructor in Hrun.
      destruct (AudioContextClass_of w) as [cls|]; [|done].
      exists cls. split; [done|].
      by destruct (createMediaStreamDestination_property cls) as [|[]|].
    + intros (cls & Hcls & Hprop).
      destruct (constructor_builds_aux w cls Hcls Hprop) as (m & Hm). eauto.
  - intros e. unfold constructor.
    destruct (AudioContextClass_of w) as [cls|]; [|by intros [= <-]].
    destruct (createMediaStreamDestination_property cls) as [|[]|]; simpl;
      try (by intros [= <-]); done.
  - intros cls Hcls Hprop. unfold constructor.
    rewrite (AudioContextClass_of_standard _ _ Hcls).
    by destruct (createMediaStreamDestination_property cls) as [|[]|].
  - intros Hstd cls Hwk. unfold AudioContextClass_of. by rewrite Hstd, Hwk.
Qed.

Lemma constructor_probes_first_class_witness :
  (window_AudioContext shadowed_window = Some old_edge_class
   ∧ createMediaStreamDestination_property old_edge_class ≠ Callable
   ∧ window_webkitAudioContext shadowed_window = Some chrome_class
   ∧ thrown (constructor shadowed_window) = Some capability_error)
  ∧ (window_AudioContext chrome_window = None
     ∧ window_webkitAudioContext chrome_window = Some chrome_class
     ∧ AudioContextClass_of chrome_window = Some chrome_class)
  ∧ (thrown (constructor bare_window) = Some capability_error
     ∧ capability_error = capability_error).
Proof.
  split; [|split].
  - assert (createMediaStreamDestination_property old_edge_class ≠ Callable) as H
      by discriminate.
    split; [reflexivity|]. split; [exact H|]. split; [reflexivity|].
    exact (proj1 (proj2 (proj2 (constructor_probes_first_class shadowed_window)))
             old_edge_class eq_refl H).
  - split; [reflexivity|]. split; [reflexivity|].
    exact (proj2 (proj2 (proj2 (constructor_probes_first_class chrome_window)))
             eq_refl chrome_class eq_refl).
  - split; [reflexivity|].
    exact (proj1 (proj2 (constructor_probes_first_class bare_window))
             capability_error eq_refl).
Defined.

(** ** Rejected input *)

Lemma muteTrack_not_audio (t : MediaStreamTrack.t) (s : State) :
  MediaStreamTrack.kind t ≠ "audio" →
  muteTrack t s = Abrupt not_an_audio_track s
  ∧ unmuteTrack t s = Abrupt not_an_audio_track s.
Proof.
  intros Hkind. split.
  - unfold muteTrack. unfold mbind at 1, Method_bind at 1, bind at 1.
    by rewrite (check_kind_other _ _ Hkind).
  - unfold unmuteTrack. unfold mbind at 1, Method_bind at 1, bind at 1.
    by rewrite (check_kind_other _ _ Hkind).
Qed.

(** X3: each of the five per-track methods, given a track whose kind is not
    "audio" (the empty kind included), throws "not an audio track" before it
    looks at the registry: the state is untouched, whether or not the
    track's identifier is registered. *)
Theorem non_audio_track_rejected (s : State) (t : MediaStreamTrack.t) (volume : float) :
  MediaStreamTrack.kind t ≠ "audio" →
  addTrack t s = Abrupt not_an_audio_track s
  ∧ removeTrack t s = Abrupt not_an_audio_track s
  ∧ setTrackVolume t volume s = Abrupt not_an_audio_track s
  ∧ muteTrack t s = Abrupt not_an_audio_track s
  ∧ unmuteTrack t s = Abrupt not_an_audio_track s.
Proof.
  intros Hkind.
  split; [by apply addTrack_not_audio|].
  split; [by apply removeTrack_not_audio|].
  split; [by apply setTrackVolume_not_audio|].
  by apply muteTrack_not_audio.
Qed.

Lemma non_audio_track_rejected_witness :
  MediaStreamTrack.kind (MediaStreamTrack.mk 1 "a" "") ≠ "audio"
  ∧ removeTrack (MediaStreamTrack.mk 1 "a" "") state_a = Abrupt not_an_audio_track state_a
  ∧ muteTrack (MediaStreamTrack.mk 1 "a" "") state_a = Abrupt not_an_audio_track state_a.
Proof.
  assert (MediaStreamTrack.kind (MediaStreamTrack.mk 1 "a" "") ≠ "audio") as H by discriminate.
  split; [exact H|].
  destruct (non_audio_track_rejected state_a (MediaStreamTrack.mk 1 "a" "") 0%float H)
    as (_ & H2 & _ & H4 & _).
  split; [exact H2|exact H4].
Defined.

(** ** What every history keeps *)

Lemma elem_delete_subset {V} (m : JsMap.t V) (k k' : string) (v : V) :
  (k', v) ∈ JsMap.delete m k → (k', v) ∈ m ∧ k' ≠ k.
Proof.
  induction m as [|[k0 v0] m IH]; simpl; [intros H; by apply elem_of_nil in H|].
  destruct (String.eqb_spec k0 k) as [->|Hne].
  - intros H. destruct (IH H). split; [by apply list_elem_of_further|done].
  - rewrite !elem_of_cons. intros [[= -> ->]|H]; [by split; [left|]|].
    destruct (IH H). split; [by right|done].
Qed.

Lemma elem_delete_other {V} (m : JsMap.t V) (k k' : string) (v : V) :
  (k', v) ∈ m → k' ≠ k → (k', v) ∈ JsMap.delete m k.
Proof.
  induction m as [|[k0 v0] m IH]; simpl; [done|].
  rewrite elem_of_cons. intros Hin Hne.
  destruct (String.eqb_spec k0 k) as [->|Hk].
  - destruct Hin as [[= -> ->]|Hin]; [done|auto].
  - rewrite elem_of_cons. destruct Hin as [Heq|Hin]; [by left|right; auto].
Qed.

Lemma getByteTimeDomainData_length (c : AudioContext) (array : list byte) :
  length (getByteTimeDomainData c array) = length array.
Proof.
  unfold getByteTimeDomainData. rewrite length_app, length_take, length_drop. lia.
Qed.

Lemma getMixedTrackVolume_state (s : State) :
  final_state (getMixedTrackVolume s)
  = match analyser (this s) with
    | Some _ =>
        {| this := with_timeDomainData (this s)
                     (getByteTimeDomainData (audioContext (this s)) (timeDomainData (this s)));
           enabled := enabled s |}
    | None => s
    end.
Proof.
  unfold getMixedTrackVolume. unfold_method. by destruct (analyser (this s)).
Qed.

Lemma steady_frame (m m' : AudioTrackMixer) :
  caches m' = caches m →
  (∀ g, is_Some (gain_value (audioContext m) !! g) →
        is_Some (gain_value (audioContext m') !! g)) →
  destinationNode m' = destinationNode m →
  analyser m' = analyser m →
  length (timeDomainData m') = length (timeDomainData m) →
  steady m → steady m'.
Proof.
  intros Hc Hg Hd Ha Hl [Hreg Hout Hbuf]. split.
  - intros k c Hin. rewrite Hc in Hin.
    destruct (Hreg k c Hin) as (H1 & H2 & H3 & H4). auto.
  - unfold mixed_output. by rewrite Hd.
  - unfold buffer_fits. by rewrite Ha, Hl.
Qed.

Lemma steady_constructed (w : Window) (m : AudioTrackMixer) (c : option AudioContext) :
  constructor w = Normal m c → steady m.
Proof.
  unfold constructor. destruct (AudioContextClass_of w) as [cls|]; [|done].
  destruct (negb _ || negb _); [done|].
  unfold createMediaStreamDestination, createMediaStreamSource, createAnalyser. simpl.
  intros [= <- _]. split.
  - intros k c' Hin. by apply elem_of_nil in Hin.
  - by eexists _, _.
  - eexists. split; [reflexivity|]. simpl. by rewrite repeat_length.
Qed.

Lemma insert_keeps_gain (gv : gmap NodeId float) (n g : NodeId) (v : float) :
  is_Some (gv !! g) → is_Some (<[n := v]> gv !! g).
Proof.
  intros H. destruct (decide (n = g)) as [->|Hne].
  - rewrite lookup_insert_eq. by eexists.
  - by rewrite lookup_insert_ne.
Qed.

Lemma after_steady (e : Event) (s : State) :
  well_formed (this s) → steady (this s) → steady (this (after e s)).
Proof.
  intros Hwf Hst. destruct e as [t|t|t v|t|t| | | | | |t b|w|st]; cbn [after].
  - destruct (decide (MediaStreamTrack.kind t = "audio")) as [Hk|Hk];
      [|by rewrite (addTrack_not_audio _ _ Hk)].
    destruct (JsMap.get (caches (this s)) (MediaStreamTrack.id t)) as [c|] eqn:Hget;
      [by rewrite (addTrack_duplicate _ _ _ Hk Hget)|].
    rewrite (addTrack_fresh _ _ Hk Hget). simpl.
    destruct Hst as [Hreg Hout Hbuf]. split; [|done|done].
    intros k c Hin. unfold mixer_after_add in Hin. simpl in Hin.
    rewrite (set_absent _ _ _ Hget) in Hin. apply elem_of_app in Hin as [Hin|Hin].
    + destruct (Hreg k c Hin) as (H1 & H2 & H3 & H4).
      repeat split; [done..|]. simpl. by apply insert_keeps_gain.
    + apply list_elem_of_singleton in Hin as [= -> ->]. simpl.
      repeat split; [done|]. rewrite lookup_insert_eq. by eexists.
  - destruct (decide (MediaStreamTrack.kind t = "audio")) as [Hk|Hk];
      [|by rewrite (removeTrack_not_audio _ _ Hk)].
    destruct (JsMap.get (caches (this s)) (MediaStreamTrack.id t)) as [c|] eqn:Hget;
      [|by rewrite (removeTrack_absent _ _ Hk Hget)].
    destruct (well_formed_edges _ _ Hwf (registered_values _ _ _ Hget)) as (H1 & H2 & H3).
    rewrite (removeTrack_present _ _ _ Hk Hget H1 H2 H3). simpl.
    destruct Hst as [Hreg Hout Hbuf]. split; [|done|done].
    intros k c' Hin. simpl in Hin. apply elem_delete_subset in Hin as [Hin _].
    exact (Hreg k c' Hin).
  - destruct (decide (MediaStreamTrack.kind t = "audio")) as [Hk|Hk];
      [|by rewrite (setTrackVolume_not_audio _ _ _ Hk)].
    destruct (JsMap.get (caches (this s)) (MediaStreamTrack.id t)) as [c|] eqn:Hget;
      [|by rewrite (setTrackVolume_absent _ _ _ Hk Hget)].
    destruct (to_float32 (v / 100)%float) as [stored|] eqn:Hv;
      [|by rewrite (setTrackVolume_refused _ _ _ _ Hk Hget Hv)].
    rewrite (setTrackVolume_present _ _ _ _ _ Hk Hget Hv). simpl.
    eapply steady_frame; [..|exact Hst]; try reflexivity.
    intros g Hg. simpl. by apply insert_keeps_gain.
  - destruct (decide (MediaStreamTrack.kind t = "audio")) as [Hk|Hk];
      [|by rewrite (proj1 (muteTrack_not_audio _ _ Hk))].
    destruct (JsMap.get (caches (this s)) (MediaStreamTrack.id t)) as [c|] eqn:Hget.
    + by rewrite (muteTrack_present _ _ _ Hk Hget).
    + by rewrite (proj1 (muteTrack_absent _ _ Hk Hget)).
  - destruct (decide (MediaStreamTrack.kind t = "audio")) as [Hk|Hk];
      [|by rewrite (proj2 (muteTrack_not_audio _ _ Hk))].
    destruct (JsMap.get (caches (this s)) (MediaStreamTrack.id t)) as [c|] eqn:Hget.
    + by rewrite (unmuteTrack_present _ _ _ Hk Hget).
    + by rewrite (proj2 (muteTrack_absent _ _ Hk Hget)).
  - exact Hst.
  - exact Hst.
  - rewrite getMixedTrackVolume_state. destruct (analyser (this s)) eqn:Han; [|done].
    simpl. eapply steady_frame; [..|exact Hst]; try done.
    simpl. apply getByteTimeDomainData_length.
  - exact Hst.
  - rewrite (destroy_run _ Hwf). unfold on_context, close. simpl.
    destruct Hst as [Hreg Hout Hbuf].
    destruct (state (audioContext (this s))); simpl;
      (split; [intros k c Hin; by apply elem_of_nil in Hin|done|done]).
  - exact Hst.
  - simpl. eapply steady_frame; [..|exact Hst]; done.
  - simpl. eapply steady_frame; [..|exact Hst]; try done.
    unfold statechange, resume. simpl.
    by destruct (onstatechange (audioContext (this s))), st.
Qed.

Lemma reachable_steady (s : State) : reachable s → steady (this s).
Proof.
  induction 1 as [w m c flags Hnew|e s Hs IH].
  - simpl. by eapply steady_constructed.
  - apply after_steady; [by apply reachable_well_formed|done].
Qed.

(** X4: in every state a mixer can reach, each registration is stored under
    the identifier of its own track, that track is of kind "audio", its
    wrapper stream holds that track alone, and its gain node has a gain
    value. *)
Theorem registrations_sound_reachable (s : State) :
  reachable s →
  ∀ id c, registered (this s) id c →
    MediaStreamTrack.id (track c) = id
    ∧ MediaStreamTrack.kind (track c) = "audio"
    ∧ mediaStream c = [track c]
    ∧ is_Some (gain_value (audioContext (this s)) !! gainNode c).
Proof.
  intros Hs id c Hc. apply (steady_registrations _ (reachable_steady _ Hs)).
  by apply get_Some_elem.
Qed.

Lemma registrations_sound_reachable_witness :
  reachable state_ab
  ∧ registered (this state_ab) "b" (cache_for track_b (audioContext (this state_a)))
  ∧ MediaStreamTrack.id (track (cache_for track_b (audioContext (this state_a)))) = "b"
  ∧ is_Some (gain_value (audioContext (this state_ab)) !! 6).
Proof.
  split; [exact state_ab_reachable|]. split; [reflexivity|].
  destruct (registrations_sound_reachable state_ab state_ab_reachable "b"
              (cache_for track_b (audioContext (this state_a))) eq_refl)
    as (H1 & _ & _ & H4).
  split; [exact H1|exact H4].
Defined.

(** ** [getTracks] *)

Lemma push_all {A B} (f : A → B) (l : list A) : ∀ acc : list B,
  fold_left (fun tracks cache => (tracks ++ [f cache])%list) l acc = (acc ++ map f l)%list.
Proof.
  induction l as [|a l IH]; intros acc; simpl.
  - by rewrite app_nil_r.
  - rewrite IH. by rewrite <- app_assoc.
Qed.

Lemma getTracks_run (s : State) :
  getTracks s = Normal (map track (JsMap.values (caches (this s)))) s.
Proof. unfold getTracks. unfold_method. by rewrite push_all. Qed.

Lemma sound_ids (m : JsMap.t TrackCache) :
  (∀ k c, (k, c) ∈ m → MediaStreamTrack.id (track c) = k) →
  map MediaStreamTrack.id (map track (JsMap.values m)) = JsMap.keys m.
Proof.
  induction m as [|[k c] m IH]; intros H; simpl; [done|].
  rewrite (H k c) by apply list_elem_of_here.
  f_equal. apply IH. intros k' c' Hin. apply H. by apply list_elem_of_further.
Qed.

(** X5: [getTracks] changes nothing, and in every state a mixer can reach
    it returns the registered tracks and nothing else: a track is in the
    result exactly when it is the track of the registration under its own
    identifier; the identifiers in the result are pairwise distinct and
    every track in it is of kind "audio". *)
Theorem getTracks_registered (s : State) :
  reachable s →
  ∃ ts, getTracks s = Normal ts s
        ∧ NoDup (map MediaStreamTrack.id ts)
        ∧ (∀ t, t ∈ ts ↔ ∃ c, registered (this s) (MediaStreamTrack.id t) c ∧ track c = t)
        ∧ (∀ t, t ∈ ts → MediaStreamTrack.kind t = "audio").
Proof.
  intros Hs. pose proof (reachable_well_formed _ Hs) as Hwf.
  pose proof (steady_registrations _ (reachable_steady _ Hs)) as Hreg.
  exists (map track (JsMap.values (caches (this s)))).
  split; [apply getTracks_run|]. split; [|split].
  - rewrite sound_ids; [apply Hwf|]. intros k c Hin. by apply Hreg.
  - intros t. rewrite list_elem_of_fmap. split.
    + intros (c & -> & Hc). apply values_elem in Hc as [k Hin].
      exists c. split; [|done]. unfold registered.
      destruct (Hreg k c Hin) as (-> & _). apply elem_get_Some; [apply Hwf|done].
    + intros (c & Hc & <-). exists c. split; [done|]. by eapply registered_values.
  - intros t Ht. apply list_elem_of_fmap in Ht as (c & -> & Hc).
    apply values_elem in Hc as [k Hin]. by destruct (Hreg k c Hin) as (_ & ? & _).
Qed.

Lemma getTracks_registered_witness :
  reachable state_ab
  ∧ ∃ ts, getTracks state_ab = Normal ts state_ab
          ∧ NoDup (map MediaStreamTrack.id ts)
          ∧ (track_b ∈ ts ↔ ∃ c, registered (this state_ab) "b" c ∧ track c = track_b).
Proof.
  split; [exact state_ab_reachable|].
  destruct (getTracks_registered state_ab state_ab_reachable) as (ts & H1 & H2 & H3 & _).
  exists ts. split; [exact H1|]. split; [exact H2|exact (H3 track_b)].
Defined.

(** X6: a successful [addTrack] puts the new track last: [getTracks] after
    it returns what it returned before, followed by the track added. *)
Theorem getTracks_after_addTrack (s : State) (t : MediaStreamTrack.t) :
  MediaStreamTrack.kind t = "audio" →
  JsMap.get (caches (this s)) (MediaStreamTrack.id t) = None →
  ∃ ts, returned (getTracks s) = Some ts
        ∧ returned (getTracks (final_state (addTrack t s))) = Some (ts ++ [t])%list.
Proof.
  intros Hk Hget. exists (map track (JsMap.values (caches (this s)))).
  rewrite !getTracks_run, (addTrack_fresh _ _ Hk Hget). simpl.
  split; [done|]. rewrite (set_absent _ _ _ Hget), values_app, map_app. reflexivity.
Qed.

Lemma getTracks_after_addTrack_witness :
  MediaStreamTrack.kind track_b = "audio"
  ∧ JsMap.get (caches (this state_a)) (MediaStreamTrack.id track_b) = None
  ∧ ∃ ts, returned (getTracks state_a) = Some ts
          ∧ returned (getTracks (final_state (addTrack track_b state_a)))
            = Some (ts ++ [track_b])%list.
Proof.
  split; [reflexivity|]. split; [reflexivity|].
  exact (getTracks_after_addTrack state_a track_b eq_refl eq_refl).
Defined.

Lemma tracks_after_delete (m : JsMap.t TrackCache) (k : string) :
  (∀ k' c, (k', c) ∈ m → MediaStreamTrack.id (track c) = k') →
  map track (JsMap.values (JsMap.delete m k))
  = List.filter (fun t => negb (String.eqb (MediaStreamTrack.id t) k))
      (map track (JsMap.values m)).
Proof.
  induction m as [|[k0 c0] m IH]; intros H; simpl; [done|].
  rewrite (H k0 c0) by apply list_elem_of_here.
  assert (∀ k' c, (k', c) ∈ m → MediaStreamTrack.id (track c) = k') as H'
    by (intros k' c Hin; apply H; by apply list_elem_of_further).
  destruct (String.eqb k0 k); simpl; [by apply IH|].
  f_equal. by apply IH.
Qed.

(** X7: in a state a mixer can reach, [getTracks] after [removeTrack(t)]
    returns what it returned before without the track that carries the
    identifier of [t], the others in their order; the track is dropped by
    identifier, whichever track object was passed. *)
Theorem getTracks_after_removeTrack (s : State) (t : MediaStreamTrack.t) :
  reachable s →
  MediaStreamTrack.kind t = "audio" →
  ∃ ts, returned (getTracks s) = Some ts
        ∧ returned (getTracks (final_state (removeTrack t s)))
          = Some (List.filter
                    (fun t' => negb (String.eqb (MediaStreamTrack.id t') (MediaStreamTrack.id t)))
                    ts).
Proof.
  intros Hs Hk. pose proof (reachable_well_formed _ Hs) as Hwf.
  pose proof (steady_registrations _ (reachable_steady _ Hs)) as Hreg.
  assert (∀ k' c, (k', c) ∈ caches (this s) → MediaStreamTrack.id (track c) = k') as Hids
    by (intros k' c Hin; by apply Hreg).
  exists (map track (JsMap.values (caches (this s)))).
  rewrite !getTracks_run. split; [done|]. simpl. f_equal.
  rewrite <- (tracks_after_delete _ _ Hids).
  destruct (JsMap.get (caches (this s)) (MediaStreamTrack.id t)) as [c|] eqn:Hget.
  - destruct (well_formed_edges _ _ Hwf (registered_values _ _ _ Hget)) as (H1 & H2 & H3).
    by rewrite (removeTrack_present _ _ _ Hk Hget H1 H2 H3).
  - rewrite (removeTrack_absent _ _ Hk Hget). simpl. by rewrite (delete_absent _ _ Hget).
Qed.

Lemma getTracks_after_removeTrack_witness :
  reachable state_ab
  ∧ MediaStreamTrack.kind track_a_twin = "audio"
  ∧ returned (getTracks (final_state (removeTrack track_a_twin state_ab))) = Some [track_b].
Proof.
  split; [exact state_ab_reachable|]. split; [reflexivity|].
  destruct (getTracks_after_removeTrack state_ab track_a_twin state_ab_reachable eq_refl)
    as (ts & H1 & H2).
  injection H1 as <-. exact H2.
Defined.

(** ** How calls compose *)

Lemma delete_appended (m : JsMap.t TrackCache) (k : string) (c : TrackCache) :
  JsMap.get m k = None → JsMap.delete (m ++ [(k, c)])%list k = m.
Proof.
  induction m as [|[k0 c0] m IH]; simpl.
  - by rewrite String.eqb_refl.
  - destruct (String.eqb_spec k0 k) as [->|Hne]; [done|]. intros H. by rewrite IH.
Qed.

(** A connection of a well-formed mixer ends in a node that exists, and
    what feeds the destination exists as well. *)
Lemma well_formed_no_fresh_edge (m : AudioTrackMixer) (a b : NodeId) :
  well_formed m → (a, b) ∈ connections (audioContext m) →
  b < node_count (audioContext m)
  ∧ (b = destination m → a < node_count (audioContext m)).
Proof.
  intros [_ _ Hcreated Hgd (an & tap & _ & -> & Hanc & Hand & _ & Hconn) Hdest] Hin.
  rewrite Hconn, elem_of_union, elem_of_singleton, elem_of_edges_of in Hin.
  destruct Hin as [(c & Hc & [He|He])|He]; injection He as -> ->.
  - split; [by apply Hcreated|]. intros Heq. exfalso. by eapply Hgd.
  - split; [done|]. intros _. by apply Hcreated.
  - split; [done|]. intros Heq. done.
Qed.

(** X8: in a state a mixer can reach, adding an unregistered audio track
    and removing it again brings back the registry, the connections, the
    gains of the registered tracks' nodes and the tracks' flags; what stays
    behind are the two nodes created for the track (they are never
    released) and the gain value of the orphaned gain node. *)
Theorem addTrack_removeTrack_round_trip (s : State) (t : MediaStreamTrack.t) :
  reachable s →
  MediaStreamTrack.kind t = "audio" →
  JsMap.get (caches (this s)) (MediaStreamTrack.id t) = None →
  ∃ s1 s2, addTrack t s = Normal (this s1) s1
           ∧ removeTrack t s1 = Normal (this s2) s2
           ∧ caches (this s2) = caches (this s)
           ∧ connections (audioContext (this s2)) = connections (audioContext (this s))
           ∧ enabled s2 = enabled s
           ∧ node_count (audioContext (this s2)) = 2 + node_count (audioContext (this s))
           ∧ gain_value (audioContext (this s2))
             = <[S (node_count (audioContext (this s))) := 1%float]>
                 (gain_value (audioContext (this s))).
Proof.
  intros Hs Hk Hget.
  pose proof (reachable_well_formed _ Hs) as Hwf.
  pose proof (reachable_after (call_addTrack t) s Hs) as Hs1. cbn [after] in Hs1.
  rewrite (addTrack_fresh _ _ Hk Hget) in Hs1. simpl in Hs1.
  pose proof (reachable_well_formed _ Hs1) as Hwf1.
  set (s1 := {| this := mixer_after_add (this s) t; enabled := enabled s |}) in *.
  assert (JsMap.get (caches (this s1)) (MediaStreamTrack.id t)
          = Some (cache_for t (audioContext (this s)))) as Hget1 by apply get_set_eq.
  destruct (well_formed_edges _ _ Hwf1 (registered_values _ _ _ Hget1)) as (H1 & H2 & H3).
  exists s1,
    {| this := mixer_after_remove (this s1) (MediaStreamTrack.id t)
                 (cache_for t (audioContext (this s)));
       enabled := enabled s1 |}.
  split; [by apply addTrack_fresh|].
  split; [exact (removeTrack_present _ _ _ Hk Hget1 H1 H2 H3)|]. simpl.
  split; [rewrite (set_absent _ _ _ Hget); by apply delete_appended|].
  split; [|done].
  unfold destination. simpl. apply set_eq. intros [a b].
  rewrite !elem_of_difference, !elem_of_union, !elem_of_singleton. split; [tauto|].
  intros Hin. destruct (well_formed_no_fresh_edge _ _ _ Hwf Hin) as [Hb Ha].
  unfold destination in Ha.
  split; [split; [tauto|]|]; intros [= -> ->]; [specialize (Ha eq_refl)|]; lia.
Qed.

Lemma addTrack_removeTrack_round_trip_witness :
  reachable state_a
  ∧ MediaStreamTrack.kind track_b = "audio"
  ∧ JsMap.get (caches (this state_a)) (MediaStreamTrack.id track_b) = None
  ∧ ∃ s1 s2, addTrack track_b state_a = Normal (this s1) s1
             ∧ removeTrack track_b s1 = Normal (this s2) s2
             ∧ caches (this s2) = caches (this state_a)
             ∧ connections (audioContext (this s2)) = connections (audioContext (this state_a)).
Proof.
  split; [exact state_a_reachable|]. split; [reflexivity|]. split; [reflexivity|].
  destruct (addTrack_removeTrack_round_trip state_a track_b state_a_reachable eq_refl eq_refl)
    as (s1 & s2 & H1 & H2 & H3 & H4 & _).
  exists s1, s2. auto.
Defined.

(** X9: of two [setTrackVolume] calls for the same track the last one
    wins, provided the platform takes its value: when the quotient of the
    second volume has a single-precision rounding, the second call, run
    where the first one ended, completes as it would have without the
    first, in the same state.  When it has none, the second call changes
    nothing: what the first call left stays in place. *)
Theorem setTrackVolume_last_wins (s : State) (t : MediaStreamTrack.t) (v1 v2 : float) :
  (is_Some (to_float32 (v2 / 100)%float) →
     setTrackVolume t v2 (final_state (setTrackVolume t v1 s)) = setTrackVolume t v2 s)
  ∧ (to_float32 (v2 / 100)%float = None →
     final_state (setTrackVolume t v2 (final_state (setTrackVolume t v1 s)))
     = final_state (setTrackVolume t v1 s)).
Proof.
  destruct (decide (MediaStreamTrack.kind t = "audio")) as [Hk|Hk];
    [|by rewrite !(setTrackVolume_not_audio _ _ _ Hk)].
  destruct (JsMap.get (caches (this s)) (MediaStreamTrack.id t)) as [c|] eqn:Hget;
    [|rewrite (setTrackVolume_absent _ v1 _ Hk Hget); simpl;
      by rewrite (setTrackVolume_absent _ v2 _ Hk Hget)].
  assert (JsMap.get (caches (this (final_state (setTrackVolume t v1 s)))) (MediaStreamTrack.id t)
          = Some c) as Hget1.
  { destruct (to_float32 (v1 / 100)%float) as [y1|] eqn:Hv1.
    - by rewrite (setTrackVolume_present _ _ _ _ _ Hk Hget Hv1).
    - by rewrite (setTrackVolume_refused _ _ _ _ Hk Hget Hv1). }
  split.
  - intros [y2 Hv2].
    rewrite (setTrackVolume_present _ _ _ _ _ Hk Hget1 Hv2),
      (setTrackVolume_present _ _ _ _ _ Hk Hget Hv2).
    destruct (to_float32 (v1 / 100)%float) as [y1|] eqn:Hv1.
    + rewrite (setTrackVolume_present _ _ _ _ _ Hk Hget Hv1). simpl.
      unfold mixer_with_gain. simpl. do 2 f_equal.
      unfold with_audioContext, with_gain_value. simpl. do 2 f_equal.
      apply insert_insert_eq.
    + by rewrite (setTrackVolume_refused _ _ _ _ Hk Hget Hv1).
  - intros Hv2. by rewrite (setTrackVolume_refused _ _ _ _ Hk Hget1 Hv2).
Qed.

Lemma setTrackVolume_last_wins_witness :
  (is_Some (to_float32 (75 / 100)%float)
   ∧ setTrackVolume track_a 75 (final_state (setTrackVolume track_a 33 state_a))
     = setTrackVolume track_a 75 state_a)
  ∧ (to_float32 (PrimFloat.nan / 100)%float = None
     ∧ final_state (setTrackVolume track_a PrimFloat.nan
                      (final_state (setTrackVolume track_a 50 state_a)))
       = final_state (setTrackVolume track_a 50 state_a)).
Proof.
  assert (is_Some (to_float32 (75 / 100)%float)) as H1 by (eexists; vm_compute; reflexivity).
  assert (to_float32 (PrimFloat.nan / 100)%float = None) as H2 by (vm_compute; reflexivity).
  split.
  - split; [exact H1|].
    exact (proj1 (setTrackVolume_last_wins state_a track_a 33 75) H1).
  - split; [exact H2|].
    exact (proj2 (setTrackVolume_last_wins state_a track_a 50 PrimFloat.nan) H2).
Defined.

Lemma gain_nodes_distinct (m : JsMap.t TrackCache) (k k' : string) (c c' : TrackCache) :
  NoDup (map gainNode (JsMap.values m)) →
  (k, c) ∈ m → (k', c') ∈ m → gainNode c = gainNode c' → k = k'.
Proof.
  induction m as [|[k0 c0] m IH]; simpl; [intros _ H; by apply elem_of_nil in H|].
  intros Hnd Hin Hin' Hg. apply NoDup_cons in Hnd as [Hfresh Hnd].
  apply elem_of_cons in Hin as [[= -> ->]|Hin];
    apply elem_of_cons in Hin' as [[= -> ->]|Hin']; [done| | |by apply IH].
  - exfalso. apply Hfresh. rewrite Hg. apply list_elem_of_fmap. exists c'.
    split; [done|]. apply values_elem. by exists k'.
  - exfalso. apply Hfresh. rewrite <- Hg. apply list_elem_of_fmap. exists c.
    split; [done|]. apply values_elem. by exists k.
Qed.

(** X10: in a state a mixer can reach, the gain of a registered track is
    changed by nothing but a [setTrackVolume] for its own identifier: every
    other event (adding or removing tracks, setting the volume of another
    identifier, muting, the getters, the meter, [destroy], the world) leaves
    it as it is. *)
Theorem gain_changed_by_setTrackVolume_only (s : State) (id : string) (c : TrackCache)
    (e : Event) :
  reachable s →
  registered (this s) id c →
  (∀ t v, e = call_setTrackVolume t v → MediaStreamTrack.id t ≠ id) →
  gain_value (audioContext (this (after e s))) !! gainNode c
  = gain_value (audioContext (this s)) !! gainNode c.
Proof.
  intros Hs Hc He. pose proof (reachable_well_formed _ Hs) as Hwf.
  pose proof (registered_values _ _ _ Hc) as Hin.
  destruct e as [t|t|t v|t|t| | | | | |t b|w|st]; cbn [after]; try reflexivity.
  - destruct (decide (MediaStreamTrack.kind t = "audio")) as [Hk|Hk];
      [|by rewrite (addTrack_not_audio _ _ Hk)].
    destruct (JsMap.get (caches (this s)) (MediaStreamTrack.id t)) as [c'|] eqn:Hget;
      [by rewrite (addTrack_duplicate _ _ _ Hk Hget)|].
    rewrite (addTrack_fresh _ _ Hk Hget). simpl.
    apply lookup_insert_ne. pose proof (wf_created _ Hwf c Hin). lia.
  - destruct (decide (MediaStreamTrack.kind t = "audio")) as [Hk|Hk];
      [|by rewrite (removeTrack_not_audio _ _ Hk)].
    destruct (JsMap.get (caches (this s)) (MediaStreamTrack.id t)) as [c'|] eqn:Hget;
      [|by rewrite (removeTrack_absent _ _ Hk Hget)].
    destruct (well_formed_edges _ _ Hwf (registered_values _ _ _ Hget)) as (H1 & H2 & H3).
    by rewrite (removeTrack_present _ _ _ Hk Hget H1 H2 H3).
  - destruct (decide (MediaStreamTrack.kind t = "audio")) as [Hk|Hk];
      [|by rewrite (setTrackVolume_not_audio _ _ _ Hk)].
    destruct (JsMap.get (caches (this s)) (MediaStreamTrack.id t)) as [c'|] eqn:Hget;
      [|by rewrite (setTrackVolume_absent _ _ _ Hk Hget)].
    destruct (to_float32 (v / 100)%float) as [stored|] eqn:Hv;
      [|by rewrite (setTrackVolume_refused _ _ _ _ Hk Hget Hv)].
    rewrite (setTrackVolume_present _ _ _ _ _ Hk Hget Hv). simpl.
    apply lookup_insert_ne. intros Hg.
    apply (He t v eq_refl).
    eapply (gain_nodes_distinct (caches (this s))); [apply Hwf| | |exact Hg];
      by apply get_Some_elem.
  - destruct (decide (MediaStreamTrack.kind t = "audio")) as [Hk|Hk];
      [|by rewrite (proj1 (muteTrack_not_audio _ _ Hk))].
    destruct (JsMap.get (caches (this s)) (MediaStreamTrack.id t)) as [c'|] eqn:Hget.
    + by rewrite (muteTrack_present _ _ _ Hk Hget).
    + by rewrite (proj1 (muteTrack_absent _ _ Hk Hget)).
  - destruct (decide (MediaStreamTrack.kind t = "audio")) as [Hk|Hk];
      [|by rewrite (proj2 (muteTrack_not_audio _ _ Hk))].
    destruct (JsMap.get (caches (this s)) (MediaStreamTrack.id t)) as [c'|] eqn:Hget.
    + by rewrite (unmuteTrack_present _ _ _ Hk Hget).
    + by rewrite (proj2 (muteTrack_absent _ _ Hk Hget)).
  - rewrite getMixedTrackVolume_state. by destruct (analyser (this s)).
  - rewrite (destroy_run _ Hwf). unfold on_context, close. simpl.
    by destruct (state (audioContext (this s))).
  - simpl. unfold statechange, resume. simpl.
    by destruct (onstatechange (audioContext (this s))), st.
Qed.

Lemma gain_changed_by_setTrackVolume_only_witness :
  reachable state_ab
  ∧ registered (this state_ab) "a" (cache_for track_a (audioContext fresh_mixer))
  ∧ (∀ t v, call_setTrackVolume track_b 50 = call_setTrackVolume t v →
            MediaStreamTrack.id t ≠ "a")
  ∧ gain_value (audioContext (this (after (call_setTrackVolume track_b 50) state_ab))) !! 4
    = gain_value (audioContext (this state_ab)) !! 4.
Proof.
  assert (∀ t v, call_setTrackVolume track_b 50 = call_setTrackVolume t v →
                 MediaStreamTrack.id t ≠ "a") as H
    by (intros t v [= <- _]; discriminate).
  split; [exact state_ab_reachable|]. split; [reflexivity|]. split; [exact H|].
  exact (gain_changed_by_setTrackVolume_only state_ab "a"
           (cache_for track_a (audioContext fresh_mixer))
           (call_setTrackVolume track_b 50) state_ab_reachable eq_refl H).
Defined.

Lemma state_with_flag_twice (s : State) (t : MediaStreamTrack.t) (b1 b2 : bool) :
  state_with_flag (state_with_flag s t b1) t b2 = state_with_flag s t b2.
Proof. unfold state_with_flag. simpl. f_equal. apply insert_insert_eq. Qed.

(** X11: of [muteTrack] and [unmuteTrack] calls for the same track the last
    one wins, and each is idempotent: a call run where an earlier mute or
    unmute of that track ended completes as it would have without the
    earlier call, in the same state.  So unmuting after muting leaves the
    flag true and the mixer as it was. *)
Theorem mute_unmute_last_wins (s : State) (t : MediaStreamTrack.t) :
  muteTrack t (final_state (muteTrack t s)) = muteTrack t s
  ∧ unmuteTrack t (final_state (unmuteTrack t s)) = unmuteTrack t s
  ∧ unmuteTrack t (final_state (muteTrack t s)) = unmuteTrack t s
  ∧ muteTrack t (final_state (unmuteTrack t s)) = muteTrack t s.
Proof.
  destruct (decide (MediaStreamTrack.kind t = "audio")) as [Hk|Hk].
  - destruct (JsMap.get (caches (this s)) (MediaStreamTrack.id t)) as [c|] eqn:Hget.
    + rewrite (muteTrack_present _ _ _ Hk Hget), (unmuteTrack_present _ _ _ Hk Hget). simpl.
      rewrite !(muteTrack_present _ _ c Hk), !(unmuteTrack_present _ _ c Hk) by done.
      by rewrite !state_with_flag_twice.
    + destruct (muteTrack_absent _ _ Hk Hget) as [-> ->]. simpl.
      by destruct (muteTrack_absent _ _ Hk Hget) as [-> ->].
  - destruct (muteTrack_not_audio _ s Hk) as [-> ->]. simpl.
    by destruct (muteTrack_not_audio _ s Hk) as [-> ->].
Qed.

(** ** What can go wrong, and what it leaves behind *)

(** X12: in a state a mixer can reach, a call that throws leaves the state
    exactly as it found it, and what can be thrown is known: [addTrack]
    throws "not an audio track" or "already added"; [removeTrack],
    [muteTrack] and [unmuteTrack] throw "not an audio track" only;
    [setTrackVolume] throws "not an audio track", or the [TypeError] of a
    gain that takes no such number (only when the quotient of the volume
    has no single-precision rounding); the getters, the meter and [destroy]
    never throw.  No connect or disconnect ever raises. *)
Theorem reachable_calls_fail_cleanly (s : State) (t : MediaStreamTrack.t) (v : float) :
  reachable s →
  (∀ e s', addTrack t s = Abrupt e s' →
     s' = s ∧ (e = not_an_audio_track ∨ e = already_added (MediaStreamTrack.id t)))
  ∧ (∀ e s', removeTrack t s = Abrupt e s' → s' = s ∧ e = not_an_audio_track)
  ∧ (∀ e s', setTrackVolume t v s = Abrupt e s' →
       s' = s ∧ (e = not_an_audio_track
                 ∨ (e = TypeError ∧ to_float32 (v / 100)%float = None)))
  ∧ (∀ e s', muteTrack t s = Abrupt e s' → s' = s ∧ e = not_an_audio_track)
  ∧ (∀ e s', unmuteTrack t s = Abrupt e s' → s' = s ∧ e = not_an_audio_track)
  ∧ thrown (getTracks s) = None
  ∧ thrown (getMixedTrack s) = None
  ∧ thrown (getMixedMediaStream s) = None
  ∧ thrown (getMixedTrackVolume s) = None
  ∧ thrown (destroy s) = None.
Proof.
  intros Hs. pose proof (reachable_well_formed _ Hs) as Hwf.
  assert (thrown (getMixedTrackVolume s) = None) as Hmeter.
  { unfold getMixedTrackVolume. unfold_method. by destruct (analyser (this s)). }
  assert (thrown (destroy s) = None) as Hdestroy.
  { rewrite (destroy_run _ Hwf). unfold on_context, close. simpl.
    by destruct (state (audioContext (this s))). }
  destruct (decide (MediaStreamTrack.kind t = "audio")) as [Hk|Hk].
  - destruct (JsMap.get (caches (this s)) (MediaStreamTrack.id t)) as [c|] eqn:Hget.
    + destruct (well_formed_edges _ _ Hwf (registered_values _ _ _ Hget)) as (H1 & H2 & H3).
      rewrite (addTrack_duplicate _ _ _ Hk Hget), (removeTrack_present _ _ _ Hk Hget H1 H2 H3),
        (muteTrack_present _ _ _ Hk Hget), (unmuteTrack_present _ _ _ Hk Hget).
      split_and!; try done.
      * intros e s' [= <- <-]. auto.
      * destruct (to_float32 (v / 100)%float) as [stored|] eqn:Hv.
        -- by rewrite (setTrackVolume_present _ _ _ _ _ Hk Hget Hv).
        -- rewrite (setTrackVolume_refused _ _ _ _ Hk Hget Hv).
           intros e s' [= <- <-]. auto.
    + destruct (muteTrack_absent _ _ Hk Hget) as [Hm Hu].
      rewrite (addTrack_fresh _ _ Hk Hget), (removeTrack_absent _ _ Hk Hget),
        (setTrackVolume_absent _ _ _ Hk Hget), Hm, Hu.
      split_and!; done.
  - destruct (muteTrack_not_audio _ s Hk) as [Hm Hu].
    rewrite (addTrack_not_audio _ _ Hk), (removeTrack_not_audio _ _ Hk),
      (setTrackVolume_not_audio _ _ _ Hk), Hm, Hu.
    split_and!; try done; intros e s' [= <- <-]; auto.
Qed.

Lemma reachable_calls_fail_cleanly_witness :
  reachable state_ab
  ∧ (∀ e s', addTrack track_a_twin state_ab = Abrupt e s' →
       s' = state_ab ∧ (e = not_an_audio_track ∨ e = already_added "a"))
  ∧ thrown (destroy state_ab) = None.
Proof.
  split; [exact state_ab_reachable|].
  destruct (reachable_calls_fail_cleanly state_ab track_a_twin 0%float state_ab_reachable)
    as (H1 & _ & _ & _ & _ & _ & _ & _ & _ & H10).
  split; [exact H1|exact H10].
Defined.

(** ** The mixed output *)

Lemma after_destinationNode (e : Event) (s : State) :
  well_formed (this s) → destinationNode (this (after e s)) = destinationNode (this s).
Proof.
  intros Hwf.
  destruct e as [t|t|t v|t|t| | | | | |t b|w|st]; cbn [after]; try reflexivity.
  - destruct (decide (MediaStreamTrack.kind t = "audio")) as [Hk|Hk];
      [|by rewrite (addTrack_not_audio _ _ Hk)].
    destruct (JsMap.get (caches (this s)) (MediaStreamTrack.id t)) as [c'|] eqn:Hget;
      [by rewrite (addTrack_duplicate _ _ _ Hk Hget)|].
    by rewrite (addTrack_fresh _ _ Hk Hget).
  - destruct (decide (MediaStreamTrack.kind t = "audio")) as [Hk|Hk];
      [|by rewrite (removeTrack_not_audio _ _ Hk)].
    destruct (JsMap.get (caches (this s)) (MediaStreamTrack.id t)) as [c'|] eqn:Hget;
      [|by rewrite (removeTrack_absent _ _ Hk Hget)].
    destruct (well_formed_edges _ _ Hwf (registered_values _ _ _ Hget)) as (H1 & H2 & H3).
    by rewrite (removeTrack_present _ _ _ Hk Hget H1 H2 H3).
  - destruct (decide (MediaStreamTrack.kind t = "audio")) as [Hk|Hk];
      [|by rewrite (setTrackVolume_not_audio _ _ _ Hk)].
    destruct (JsMap.get (caches (this s)) (MediaStreamTrack.id t)) as [c'|] eqn:Hget;
      [|by rewrite (setTrackVolume_absent _ _ _ Hk Hget)].
    destruct (to_float32 (v / 100)%float) as [stored|] eqn:Hv;
      [|by rewrite (setTrackVolume_refused _ _ _ _ Hk Hget Hv)].
    by rewrite (setTrackVolume_present _ _ _ _ _ Hk Hget Hv).
  - destruct (decide (MediaStreamTrack.kind t = "audio")) as [Hk|Hk];
      [|by rewrite (proj1 (muteTrack_not_audio _ _ Hk))].
    destruct (JsMap.get (caches (this s)) (MediaStreamTrack.id t)) as [c'|] eqn:Hget.
    + by rewrite (muteTrack_present _ _ _ Hk Hget).
    + by rewrite (proj1 (muteTrack_absent _ _ Hk Hget)).
  - destruct (decide (MediaStreamTrack.kind t = "audio")) as [Hk|Hk];
      [|by rewrite (proj2 (muteTrack_not_audio _ _ Hk))].
    destruct (JsMap.get (caches (this s)) (MediaStreamTrack.id t)) as [c'|] eqn:Hget.
    + by rewrite (unmuteTrack_present _ _ _ Hk Hget).
    + by rewrite (proj2 (muteTrack_absent _ _ Hk Hget)).
  - rewrite getMixedTrackVolume_state. by destruct (analyser (this s)).
  - rewrite (destroy_run _ Hwf). unfold on_context, close. simpl.
    by destruct (state (audioContext (this s))).
Qed.

(** X13: in every state a mixer can reach, the destination's stream
    carries exactly one track, of kind "audio"; [getMixedMediaStream]
    returns that stream and [getMixedTrack] that track, changing nothing;
    and whatever happens next ([destroy] included), both keep returning the
    same stream and the same track. *)
Theorem mixed_output_stable (s : State) (e : Event) :
  reachable s →
  ∃ mixed,
    MediaStreamTrack.kind mixed = "audio"
    ∧ getMixedMediaStream s = Normal [mixed] s
    ∧ getMixedTrack s = Normal (Some mixed) s
    ∧ returned (getMixedMediaStream (after e s)) = Some [mixed]
    ∧ returned (getMixedTrack (after e s)) = Some (Some mixed).
Proof.
  intros Hs.
  destruct (steady_output _ (reachable_steady _ Hs)) as (obj & id & Hstream).
  pose proof (after_destinationNode e s (reachable_well_formed _ Hs)) as Hsame.
  exists (MediaStreamTrack.mk obj id "audio").
  unfold getMixedMediaStream, getMixedTrack. unfold_method.
  rewrite Hsame, Hstream. by simpl.
Qed.

Lemma mixed_output_stable_witness :
  reachable state_ab
  ∧ ∃ mixed, getMixedTrack state_ab = Normal (Some mixed) state_ab
             ∧ returned (getMixedTrack (after call_destroy state_ab)) = Some (Some mixed).
Proof.
  split; [exact state_ab_reachable|].
  destruct (mixed_output_stable state_ab call_destroy state_ab_reachable)
    as (mixed & _ & _ & H1 & _ & H2).
  exists mixed. split; [exact H1|exact H2].
Defined.

(** ** The meter *)

Lemma peak_loop_ge (data : list byte) : ∀ m : Z,
  (m ≤ fold_left (fun m b => Z.max m (deviation b)) data m)%Z.
Proof.
  induction data as [|b data IH]; intros m; simpl; [lia|].
  etransitivity; [|apply IH]. lia.
Qed.

Lemma peak_loop_upper (data : list byte) : ∀ (m : Z) (b : byte),
  b ∈ data → (deviation b ≤ fold_left (fun m b => Z.max m (deviation b)) data m)%Z.
Proof.
  induction data as [|b0 data IH]; intros m b Hin; [by apply elem_of_nil in Hin|].
  simpl. apply elem_of_cons in Hin as [->|Hin]; [|by apply IH].
  etransitivity; [|apply peak_loop_ge]. lia.
Qed.

Lemma peak_loop_attained (data : list byte) : ∀ m : Z,
  fold_left (fun m b => Z.max m (deviation b)) data m = m
  ∨ ∃ b, b ∈ data ∧ fold_left (fun m b => Z.max m (deviation b)) data m = deviation b.
Proof.
  induction data as [|b0 data IH]; intros m; simpl; [by left|].
  destruct (IH (Z.max m (deviation b0))) as [Heq|(b & Hb & Heq)].
  - rewrite Heq. destruct (Z.max_spec m (deviation b0)) as [[_ ->]|[_ ->]].
    + right. exists b0. split; [apply list_elem_of_here|done].
    + by left.
  - right. exists b. split; [by apply list_elem_of_further|done].
Qed.

Lemma meter_value (s : State) (an : AnalyserNode) :
  analyser (this s) = Some an →
  returned (getMixedTrackVolume s)
  = Some (float_of_Z
            (peak (getByteTimeDomainData (audioContext (this s)) (timeDomainData (this s)))
             * 100 / 128)).
Proof.
  intros Han. unfold getMixedTrackVolume. unfold_method. rewrite Han. simpl.
  change 0%float with (float_of_Z 0).
  destruct (meter_loop (getByteTimeDomainData (audioContext (this s)) (timeDomainData (this s)))
              0 ltac:(lia)) as [-> Hr].
  fold (peak (getByteTimeDomainData (audioContext (this s)) (timeDomainData (this s)))).
  by rewrite Math_floor_exact.
Qed.

(** [peak] is the maximum deviation over the buffer. *)
Lemma peak_facts (data : list byte) :
  (∀ b, b ∈ data → deviation b ≤ peak data)%Z
  ∧ (data ≠ [] → ∃ b, b ∈ data ∧ peak data = deviation b)
  ∧ peak [] = 0%Z
  ∧ (∀ data', (∀ b, b ∈ data → b ∈ data') →
       (peak data * 100 / 128 ≤ peak data' * 100 / 128)%Z).
Proof.
  assert (∀ d b, b ∈ d → deviation b ≤ peak d)%Z as Hupper
    by (intros d b Hb; by apply peak_loop_upper).
  assert (∀ d, d ≠ [] → ∃ b, b ∈ d ∧ peak d = deviation b) as Hatt.
  { intros d Hne. destruct (peak_loop_attained d 0) as [Heq|H]; [|done].
    destruct d as [|b0 d]; [done|]. exists b0. split; [apply list_elem_of_here|].
    pose proof (Hupper (b0 :: d) b0 (list_elem_of_here _ _)) as Hle.
    unfold peak in *. pose proof (deviation_range b0). lia. }
  split; [apply Hupper|]. split; [apply Hatt|]. split; [done|].
  intros data' Hsub. apply Z.div_le_mono; [lia|]. apply Z.mul_le_mono_nonneg_r; [lia|].
  destruct data as [|b0 d]; [apply peak_range|].
  destruct (Hatt (b0 :: d) ltac:(done)) as (b & Hb & ->). apply Hupper. by apply Hsub.
Qed.

(** X14: with an analyser, the meter returns the floor of
    [peak / 128 * 100], where [peak] is what its loop computes over the
    buffer it has just filled; and that loop computes the maximum of
    |sample - 128| exactly: its result is the number D with no sample
    deviating more than D and, on a non-empty buffer, some sample deviating
    exactly D (D is 0 on an empty buffer); D is at most 128.  So the reading
    does not depend on the order of the samples. *)
Theorem meter_loop_is_maximum (s : State) (an : AnalyserNode) :
  analyser (this s) = Some an →
  let data := getByteTimeDomainData (audioContext (this s)) (timeDomainData (this s)) in
  returned (getMixedTrackVolume s)
  = Some (Math_floor ((meter_peak data / BASE) * 100)%float)
  ∧ ∃ D : Z,
      meter_peak data = float_of_Z D
      ∧ (0 ≤ D ≤ 128)%Z
      ∧ (∀ b, b ∈ data → Z.abs (Z.of_N (Byte.to_N b) - 128) ≤ D)%Z
      ∧ (data ≠ [] → ∃ b, b ∈ data ∧ D = Z.abs (Z.of_N (Byte.to_N b) - 128))
      ∧ (data = [] → D = 0%Z).
Proof.
  intros Han data. split.
  - unfold getMixedTrackVolume. unfold_method. by rewrite Han.
  - exists (peak data). destruct (peak_facts data) as (Hupper & Hatt & _ & _).
    split; [|split; [apply peak_range|split; [exact Hupper|split; [exact Hatt|by intros ->]]]].
    unfold meter_peak. change 0%float with (float_of_Z 0).
    by destruct (meter_loop data 0 ltac:(lia)) as [-> _].
Qed.

Lemma meter_loop_is_maximum_witness :
  analyser (this fresh_state) = Some {| analyser_id := 2; frequencyBinCount := 4 |}
  ∧ ∃ D : Z, meter_peak ["128"; "200"; "028"; "128"]%byte = float_of_Z D
             ∧ (0 ≤ D ≤ 128)%Z.
Proof.
  split; [reflexivity|].
  destruct (proj2 (meter_loop_is_maximum fresh_state
                     {| analyser_id := 2; frequencyBinCount := 4 |} eq_refl))
    as (D & H1 & H2 & _).
  exists D. split; [exact H1|exact H2].
Defined.

Lemma reading_table_checked : reading_table = true.
Proof. vm_compute. reflexivity. Qed.

Lemma reading_100 (L : Z) : (0 ≤ L ≤ 100)%Z → float_of_Z L = 100%float ↔ L = 100%Z.
Proof.
  intros HL. pose proof (table_lookup _ 100 L reading_table_checked HL) as H.
  cbv beta in H. apply andb_true_iff in H as [H _]. apply eqb_prop in H.
  rewrite <- Leibniz.eqb_spec, H. apply Z.eqb_eq.
Qed.

Lemma reading_0 (L : Z) : (0 ≤ L ≤ 100)%Z → float_of_Z L = 0%float ↔ L = 0%Z.
Proof.
  intros HL. pose proof (table_lookup _ 100 L reading_table_checked HL) as H.
  cbv beta in H. apply andb_true_iff in H as [_ H]. apply eqb_prop in H.
  rewrite <- Leibniz.eqb_spec, H. apply Z.eqb_eq.
Qed.

Lemma deviation_full (b : byte) : deviation b = 128%Z ↔ b = "000"%byte.
Proof.
  split; [|by intros ->]. unfold deviation. intros H.
  assert (Byte.to_N b = 0%N) as H0 by (pose proof (Byte.to_N_bounded b); lia).
  apply (f_equal Byte.of_N) in H0. rewrite Byte.of_to_N in H0. by injection H0.
Qed.

(** X15: with an analyser, the meter reads 100 exactly when some sample of
    the buffer it has just filled is the byte 0, and it reads 0 exactly when
    every sample is 127, 128 or 129.  In particular a buffer whose loudest
    sample is 255 does not reach 100. *)
Theorem meter_extremes (s : State) (an : AnalyserNode) :
  analyser (this s) = Some an →
  let data := getByteTimeDomainData (audioContext (this s)) (timeDomainData (this s)) in
  (returned (getMixedTrackVolume s) = Some 100%float ↔ "000"%byte ∈ data)
  ∧ (returned (getMixedTrackVolume s) = Some 0%float
     ↔ ∀ b, b ∈ data → (127 ≤ Z.of_N (Byte.to_N b) ≤ 129)%Z).
Proof.
  intros Han data. rewrite (meter_value _ _ Han). fold data.
  destruct (peak_facts data) as (Hupper & Hatt & Hnil & _).
  pose proof (peak_range data) as Hr.
  assert (0 ≤ peak data * 100 / 128 ≤ 100)%Z as HL.
  { pose proof (Z.div_mod (peak data * 100) 128 ltac:(lia)).
    pose proof (Z.mod_pos_bound (peak data * 100) 128 ltac:(lia)). lia. }
  assert (peak data * 100 / 128 = 100 ↔ peak data = 128)%Z as H100.
  { pose proof (Z.div_mod (peak data * 100) 128 ltac:(lia)).
    pose proof (Z.mod_pos_bound (peak data * 100) 128 ltac:(lia)). lia. }
  assert (peak data * 100 / 128 = 0 ↔ peak data ≤ 1)%Z as H0.
  { pose proof (Z.div_mod (peak data * 100) 128 ltac:(lia)).
    pose proof (Z.mod_pos_bound (peak data * 100) 128 ltac:(lia)). lia. }
  split.
  - split.
    + intros [= H]. apply (reading_100 _ HL), H100 in H.
      destruct data as [|b0 d] eqn:Hd; [rewrite Hnil in H; lia|].
      destruct (Hatt ltac:(done)) as (b & Hb & Heq).
      rewrite H in Heq. symmetry in Heq. apply deviation_full in Heq. by subst b.
    + intros Hin. f_equal. apply (reading_100 _ HL), H100.
      pose proof (Hupper _ Hin) as Hle. change (deviation "000"%byte) with 128%Z in Hle. lia.
  - split.
    + intros [= H] b Hb. apply (reading_0 _ HL), H0 in H.
      pose proof (Hupper _ Hb) as Hle. unfold deviation in Hle. lia.
    + intros Hall. f_equal. apply (reading_0 _ HL), H0.
      destruct data as [|b0 d] eqn:Hd; [rewrite Hnil; lia|].
      destruct (Hatt ltac:(done)) as (b & Hb & ->).
      specialize (Hall b Hb). unfold deviation. lia.
Qed.

Lemma meter_extremes_witness :
  analyser (this fresh_state) = Some {| analyser_id := 2; frequencyBinCount := 4 |}
  ∧ (returned (getMixedTrackVolume fresh_state) = Some 100%float
     ↔ "000"%byte ∈ getByteTimeDomainData (audioContext (this fresh_state))
                      (timeDomainData (this fresh_state))).
Proof.
  split; [reflexivity|].
  exact (proj1 (meter_extremes fresh_state {| analyser_id := 2; frequencyBinCount := 4 |}
                  eq_refl)).
Defined.

Lemma getByteTimeDomainData_again (c : AudioContext) (array : list byte) :
  getByteTimeDomainData c (getByteTimeDomainData c array) = getByteTimeDomainData c array.
Proof.
  unfold getByteTimeDomainData at 1. rewrite getByteTimeDomainData_length.
  unfold getByteTimeDomainData. f_equal.
  destruct (decide (length (time_domain c) ≤ length array)%nat) as [Hle|Hgt].
  - rewrite (take_ge (time_domain c)) by done. by rewrite drop_app_length.
  - rewrite (drop_ge array) by lia. rewrite app_nil_r.
    apply drop_ge. rewrite length_take. lia.
Qed.

Lemma with_timeDomainData_twice (m : AudioTrackMixer) (d d' : list byte) :
  with_timeDomainData (with_timeDomainData m d) d' = with_timeDomainData m d'.
Proof. reflexivity. Qed.

(** X16: reading the meter twice in a row, with the analyser hearing the
    same, gives the same number and ends in the same state: the read only
    refills the sample buffer, so the second read finds what the first one
    left. *)
Theorem getMixedTrackVolume_again (s : State) :
  getMixedTrackVolume (final_state (getMixedTrackVolume s)) = getMixedTrackVolume s.
Proof.
  rewrite getMixedTrackVolume_state.
  destruct (analyser (this s)) as [an|] eqn:Han; [|done].
  unfold getMixedTrackVolume. unfold_method. rewrite Han. simpl.
  by rewrite getByteTimeDomainData_again.
Qed.

(** X17: every constructed mixer has its analyser, and in every state it
    can reach the sample buffer has exactly the analyser's bin count of
    bytes, before and after a meter read: the "no analyser" branch of the
    meter is never taken and the buffer is never resized. *)
Theorem buffer_fits_reachable (s : State) :
  reachable s →
  ∃ an, analyser (this s) = Some an
        ∧ length (timeDomainData (this s)) = frequencyBinCount an
        ∧ length (timeDomainData (this (final_state (getMixedTrackVolume s))))
          = frequencyBinCount an
        ∧ analyser (this (final_state (getMixedTrackVolume s))) = Some an.
Proof.
  intros Hs. destruct (steady_buffer _ (reachable_steady _ Hs)) as (an & Han & Hlen).
  exists an. split; [done|]. split; [done|].
  rewrite getMixedTrackVolume_state, Han. simpl.
  by rewrite getByteTimeDomainData_length.
Qed.

Lemma buffer_fits_reachable_witness :
  reachable state_ab
  ∧ ∃ an, analyser (this state_ab) = Some an
          ∧ length (timeDomainData (this state_ab)) = frequencyBinCount an.
Proof.
  split; [exact state_ab_reachable|].
  destruct (buffer_fits_reachable state_ab state_ab_reachable) as (an & H1 & H2 & _).
  exists an. split; [exact H1|exact H2].
Defined.

(** ** [destroy], further *)

Lemma mixer_unwired_empty (m : AudioTrackMixer) :
  caches m = [] → mixer_unwired m = m.
Proof.
  intros Hc. unfold mixer_unwired. rewrite Hc. simpl. rewrite difference_empty_L.
  rewrite with_connections_same. destruct m; simpl in *. by subst.
Qed.

(** X18: in a state a mixer can reach, [destroy] takes away the
    registrations' connections only: the analyser's tap (analyser source to
    analyser) is the one connection left, and the gains, the node count and
    the tracks' [enabled] flags are as before. *)
Theorem destroy_leaves_tap (s : State) :
  reachable s →
  ∃ an, analyser (this s) = Some an
        ∧ connections (audioContext (this (final_state (destroy s))))
          = {[ (analyserSourceNode (this s), analyser_id an) ]}
        ∧ gain_value (audioContext (this (final_state (destroy s))))
          = gain_value (audioContext (this s))
        ∧ node_count (audioContext (this (final_state (destroy s))))
          = node_count (audioContext (this s))
        ∧ enabled (final_state (destroy s)) = enabled s.
Proof.
  intros Hs. pose proof (reachable_well_formed _ Hs) as Hwf.
  destruct (wf_tap _ (well_formed_unwired _ Hwf)) as (an & tap & Han & -> & _ & _ & _ & Hconn).
  exists an. split; [exact Han|].
  rewrite (destroy_run _ Hwf). unfold on_context, close. simpl in *.
  assert (connections (audioContext (this s))
            ∖ edges_of (destination (this s)) (JsMap.values (caches (this s)))
          = {[ (analyserSourceNode (this s), analyser_id an) ]}) as Hleft.
  { rewrite Hconn. apply set_eq. intros e. rewrite elem_of_union, elem_of_empty. tauto. }
  destruct (state (audioContext (this s))); simpl; by rewrite Hleft.
Qed.

Lemma destroy_leaves_tap_witness :
  reachable state_ab
  ∧ connections (audioContext (this (final_state (destroy state_ab)))) = {[ (1, 2) ]}.
Proof.
  split; [exact state_ab_reachable|].
  destruct (destroy_leaves_tap state_ab state_ab_reachable) as (an & Han & Hconn & _).
  injection Han as <-. exact Hconn.
Defined.

(** X19: in a state a mixer can reach, a second [destroy] right after the
    first one changes nothing and returns a promise that is already
    rejected with [InvalidStateError]: the context is closed, and there is
    nothing left to unwire. *)
Theorem destroy_twice (s : State) :
  reachable s →
  destroy (final_state (destroy s))
  = Normal (Settled (Reject (DOMException "InvalidStateError"))) (final_state (destroy s)).
Proof.
  intros Hs. pose proof (reachable_well_formed _ Hs) as Hwf.
  pose proof (reachable_after call_destroy s Hs) as Hs1. cbn [after] in Hs1.
  pose proof (reachable_well_formed _ Hs1) as Hwf1.
  rewrite (destroy_run _ Hwf1).
  assert (caches (this (final_state (destroy s))) = []
          ∧ state (audioContext (this (final_state (destroy s)))) = closed) as [Hc Hst].
  { rewrite (destroy_run _ Hwf). unfold on_context, close. simpl.
    destruct (state (audioContext (this s))) eqn:Hst; simpl; by rewrite ?Hst. }
  rewrite (mixer_unwired_empty _ Hc). rewrite state_eta.
  unfold on_context, close. rewrite Hst.
  by rewrite with_audioContext_id, state_eta.
Qed.

Lemma destroy_twice_witness :
  reachable state_ab
  ∧ destroy (final_state (destroy state_ab))
    = Normal (Settled (Reject (DOMException "InvalidStateError")))
        (final_state (destroy state_ab)).
Proof.
  split; [exact state_ab_reachable|].
  exact (destroy_twice state_ab state_ab_reachable).
Defined.

(** ** Volume across a removal *)

(** X20: the volume of a track is not kept across [removeTrack]: in a state
    a mixer can reach, removing a registered audio track and adding it again
    registers it with a gain node that did not exist before, at gain 1,
    whatever its volume was; the gain node it had keeps its old value but is
    no longer wired to the destination. *)
Theorem removeTrack_addTrack_resets_gain (s : State) (t : MediaStreamTrack.t) (c : TrackCache) :
  reachable s →
  MediaStreamTrack.kind t = "audio" →
  registered (this s) (MediaStreamTrack.id t) c →
  ∃ s1 s2 c',
    removeTrack t s = Normal (this s1) s1
    ∧ addTrack t s1 = Normal (this s2) s2
    ∧ registered (this s2) (MediaStreamTrack.id t) c'
    ∧ track c' = t
    ∧ gainNode c' ≠ gainNode c
    ∧ gain_value (audioContext (this s2)) !! gainNode c' = Some 1%float
    ∧ gain_value (audioContext (this s2)) !! gainNode c
      = gain_value (audioContext (this s)) !! gainNode c
    ∧ ((gainNode c, destination (this s2)) ∉ connections (audioContext (this s2))).
Proof.
  intros Hs Hk Hc. pose proof (reachable_well_formed _ Hs) as Hwf.
  pose proof (registered_values _ _ _ Hc) as Hin.
  destruct (well_formed_edges _ _ Hwf Hin) as (H1 & H2 & H3).
  pose proof (wf_created _ Hwf c Hin) as Hlt.
  set (s1 := {| this := mixer_after_remove (this s) (MediaStreamTrack.id t) c;
                enabled := enabled s |}).
  assert (JsMap.get (caches (this s1)) (MediaStreamTrack.id t) = None) as Hget1
    by apply get_delete_eq.
  exists s1, {| this := mixer_after_add (this s1) t; enabled := enabled s1 |},
         (cache_for t (audioContext (this s1))).
  split; [by apply removeTrack_present|].
  split; [by apply addTrack_fresh|]. simpl.
  split; [apply get_set_eq|]. split; [done|].
  split; [lia|]. split; [apply lookup_insert_eq|].
  split; [apply lookup_insert_ne; lia|].
  unfold destination. simpl.
  rewrite !elem_of_union, !elem_of_difference, !elem_of_singleton.
  intros [Heq|[Heq|[[_ Hn] _]]]; [injection Heq as Heq; lia| |by apply Hn].
  injection Heq as Heq1 Heq2. pose proof (wf_dest _ Hwf) as Hd. unfold destination in *. lia.
Qed.

Lemma removeTrack_addTrack_resets_gain_witness :
  reachable (after (call_setTrackVolume track_a 50) state_ab)
  ∧ MediaStreamTrack.kind track_a = "audio"
  ∧ registered (this (after (call_setTrackVolume track_a 50) state_ab))
      (MediaStreamTrack.id track_a) (cache_for track_a (audioContext fresh_mixer))
  ∧ ∃ s1 s2 c',
      removeTrack track_a (after (call_setTrackVolume track_a 50) state_ab) = Normal (this s1) s1
      ∧ addTrack track_a s1 = Normal (this s2) s2
      ∧ registered (this s2) (MediaStreamTrack.id track_a) c'
      ∧ gain_value (audioContext (this s2)) !! gainNode c' = Some 1%float.
Proof.
  assert (reachable (after (call_setTrackVolume track_a 50) state_ab)) as Hs
    by exact (reachable_after _ _ state_ab_reachable).
  split; [exact Hs|]. split; [reflexivity|]. split; [reflexivity|].
  destruct (removeTrack_addTrack_resets_gain _ track_a
              (cache_for track_a (audioContext fresh_mixer)) Hs eq_refl eq_refl)
    as (s1 & s2 & c' & H1 & H2 & H3 & _ & _ & H4 & _).
  exists s1, s2, c'. auto.
Defined.

(** ** Browser detection *)

Lemma string_or_truthy (x : option string) (d : string) :
  d ≠ "" → string_or x d ≠ "".
Proof.
  intros Hd. unfold string_or, truthy. destruct x as [s|]; [|done].
  destruct (String.eqb_spec s ""); simpl; done.
Qed.

(** X21: the browser tests exclude one another: of [isSafari], [isChrome],
    [isFirefox], [isEdge] and [isWeChat] at most one holds for a given user
    agent; [isOldEdge] implies [isEdge]; and when the parser reports no
    browser name (or an empty one) none of them holds.  Likewise [isIOS] and
    [isMacOS] never hold together. *)
Theorem browser_tests_exclusive (b : Bowser) (os : BowserOS) :
  (count_true [isSafari b; isChrome b; isFirefox b; isEdge b; isWeChat b] ≤ 1)%nat
  ∧ (isOldEdge b = true → isEdge b = true)
  ∧ ((getBrowser_name b = None ∨ getBrowser_name b = Some "") →
     isSafari b = false ∧ isChrome b = false ∧ isFirefox b = false
     ∧ isEdge b = false ∧ isWeChat b = false ∧ isOldEdge b = false)
  ∧ isIOS os && isMacOS os = false.
Proof.
  split; [|split; [|split]].
  - unfold isSafari, isChrome, isFirefox, isEdge, isWeChat, count_true.
    generalize (toLowerCase (name (getBrowserInfo b))). intros n.
    destruct (String.eqb_spec n "safari") as [->|_]; [simpl; lia|].
    destruct (String.eqb_spec n "chrome") as [->|_]; [simpl; lia|].
    destruct (String.eqb_spec n "firefox") as [->|_]; [simpl; lia|].
    destruct (String.eqb_spec n "microsoft edge") as [->|_]; [simpl; lia|].
    destruct (String.eqb n "wechat"); simpl; lia.
  - unfold isOldEdge, isEdge. intros H. by apply andb_true_iff in H as [H _].
  - intros Hname. unfold isSafari, isChrome, isFirefox, isEdge, isWeChat, isOldEdge.
    assert (name (getBrowserInfo b) = "unknown") as ->
      by (unfold getBrowserInfo; simpl; by destruct Hname as [-> | ->]).
    by repeat split.
  - unfold isIOS, isMacOS. generalize (toLowerCase (system_name (getSystemInfo os))).
    intros n. destruct (String.eqb_spec n "ios") as [->|_]; [done|]. done.
Qed.

Lemma browser_tests_exclusive_witness :
  (isOldEdge (bowser_of "Microsoft Edge" "18.0") = true
   ∧ isEdge (bowser_of "Microsoft Edge" "18.0") = true)
  ∧ ((getBrowser_name {| getBrowser_name := None; getBrowser_version := None;
                         getPlatform_type := None; getEngine_name := None;
                         getEngine_version := None |} = None
      ∨ getBrowser_name {| getBrowser_name := None; getBrowser_version := None;
                           getPlatform_type := None; getEngine_name := None;
                           getEngine_version := None |} = Some "")
     ∧ isOldEdge {| getBrowser_name := None; getBrowser_version := None;
                    getPlatform_type := None; getEngine_name := None;
                    getEngine_version := None |} = false).
Proof.
  split.
  - split; [reflexivity|].
    exact (proj1 (proj2 (browser_tests_exclusive (bowser_of "Microsoft Edge" "18.0")
                           {| getOS_name := None; getOS_version := None;
                              getOS_versionName := None |})) eq_refl).
  - split; [by left|].
    destruct (proj1 (proj2 (proj2 (browser_tests_exclusive
                {| getBrowser_name := None; getBrowser_version := None;
                   getPlatform_type := None; getEngine_name := None;
                   getEngine_version := None |}
                {| getOS_name := None; getOS_version := None; getOS_versionName := None |})))
                (or_introl eq_refl)) as (_ & _ & _ & _ & _ & H).
    exact H.
Defined.

(** X22: [getBrowserInfo] and [getSystemInfo] never hand back an empty name
    or version: what the parser reports is passed on when it is a non-empty
    string, and "unknown" stands in otherwise.  So the warning of
    [getMediaStreamFromElement] always names a browser and a version. *)
Theorem info_never_empty (b : Bowser) (os : BowserOS) :
  name (getBrowserInfo b) ≠ ""
  ∧ version (getBrowserInfo b) ≠ ""
  ∧ system_name (getSystemInfo os) ≠ ""
  ∧ system_version (getSystemInfo os) ≠ ""
  ∧ system_versionName (getSystemInfo os) ≠ ""
  ∧ (∀ n, getBrowser_name b = Some n → n ≠ "" → name (getBrowserInfo b) = n)
  ∧ (∀ v, getBrowser_version b = Some v → v ≠ "" → version (getBrowserInfo b) = v)
  ∧ (∀ h el c, browser h = b →
       Audio_prototype_captureStream h = false →
       Audio_prototype_mozCaptureStream h = false →
       ∃ n v, n ≠ "" ∧ v ≠ ""
              ∧ snd (getMediaStreamFromElement h el c)
                = console_warn (n ++ " - " ++ v ++ " is not support this API") c).
Proof.
  assert (∀ x n, x = Some n → n ≠ "" → string_or x "unknown" = n) as Hpass.
  { intros x n -> Hn. unfold string_or, truthy.
    by destruct (String.eqb_spec n ""). }
  split_and!; try (apply string_or_truthy; discriminate).
  - intros n. apply Hpass.
  - intros v. apply Hpass.
  - intros h el c <- Hstd Hmoz. unfold getMediaStreamFromElement. rewrite Hstd, Hmoz.
    exists (name (getBrowserInfo (browser h))), (version (getBrowserInfo (browser h))).
    split; [apply string_or_truthy; discriminate|].
    split; [apply string_or_truthy; discriminate|]. reflexivity.
Qed.

Lemma info_never_empty_witness :
  (getBrowser_name (bowser_of "Safari" "13.1") = Some "Safari"
   ∧ "Safari" ≠ ""
   ∧ name (getBrowserInfo (bowser_of "Safari" "13.1")) = "Safari")
  ∧ (browser safari_host = bowser_of "Safari" "13.1"
     ∧ Audio_prototype_captureStream safari_host = false
     ∧ Audio_prototype_mozCaptureStream safari_host = false
     ∧ ∃ n v, n ≠ "" ∧ v ≠ ""
              ∧ snd (getMediaStreamFromElement safari_host song [])
                = console_warn (n ++ " - " ++ v ++ " is not support this API") []).
Proof.
  pose proof (info_never_empty (bowser_of "Safari" "13.1")
                {| getOS_name := None; getOS_version := None; getOS_versionName := None |})
    as (_ & _ & _ & _ & _ & H6 & _ & H8).
  assert ("Safari" ≠ "") as Hne by discriminate.
  split.
  - split; [reflexivity|]. split; [exact Hne|]. exact (H6 "Safari" eq_refl Hne).
  - split; [reflexivity|]. split; [reflexivity|]. split; [reflexivity|].
    exact (H8 safari_host song [] eq_refl eq_refl eq_refl).
Defined.
